(** * Tightrope: shallow embedding of src/tightrope.js and src/lightning.js

    The two classes of the program are embedded as functions in a small
    state-and-exception monad over a [World] that holds the fields of the
    [Tightrope] and [Lightning] instances, the audit log of the
    [transactions] module, the ordered list of outward effects (socket
    writes and ln-service calls) and the log.  Everything the program asks
    of its surroundings (the clock, ln-service, the settings, the signing
    and JSON helpers) is answered by an [Env]. *)

From Stdlib Require Import List String ZArith QArith Qabs Qround Qminmax Bool Lia.
From Stdlib Require Import DecimalString Lqa RelationClasses.
Import ListNotations.
Open Scope string_scope.
Open Scope Z_scope.

Set Implicit Arguments.

(** ** Numbers

    A JavaScript number is a double: [NaN], an infinity, or a rational
    whose significand has 53 bits.  The sign of a zero is not kept. *)
Inductive Number :=
| NaN
| Infinity (negative : bool)
| Finite (q : Q).

(** An integer as the number of that value. *)
Definition integer (z : Z) : Number := Finite (inject_Z z).
Coercion integer : Z >-> Number.

(** [z * 2 ^ e], for [e] that is not negative; [z] otherwise. *)
Definition scale (z e : Z) : Z := z * 2 ^ Z.max 0 e.

(** The integer nearest to [n / d], the even one of two. *)
Definition nearest_even (n d : Z) : Z :=
  let f := n / d in
  match 2 * (n mod d) ?= d with
  | Lt => f
  | Gt => f + 1
  | Eq => if Z.even f then f else f + 1
  end.

(** The [l] with [2 ^ l <= n / d < 2 ^ (l + 1)], for [n] and [d] positive. *)
Definition exponent (n d : Z) : Z :=
  let l := Z.log2 n - Z.log2 d in
  if scale d l <=? scale n (- l) then l else l - 1.

(** The double nearest to [q], a tie going to the even significand
    (IEEE 754 binary64, round to nearest): the significand has 53 bits, or
    fewer below [2 ^ -1022], and what rounds to [2 ^ 1024] or beyond is an
    infinity. *)
Definition binary64 (q : Q) : Number :=
  let n := Qnum (Qred q) in
  let d := Zpos (Qden (Qred q)) in
  if n =? 0 then Finite 0
  else
    let e := Z.max (exponent (Z.abs n) d - 52) (-1074) in
    let m := nearest_even (scale (Z.abs n) (- e)) (scale d e) in
    if (0 <=? e) && (2 ^ 1024 <=? scale m e) then Infinity (n <? 0)
    else Finite (Qred (Qmake (Z.sgn n * scale m e) (Z.to_pos (scale 1 (- e))))).

(** [a - b] *)
Definition subtract (a b : Number) : Number :=
  match a, b with
  | NaN, _ | _, NaN => NaN
  | Infinity s, Infinity s' => if Bool.eqb s s' then NaN else Infinity s
  | Infinity s, Finite _ => Infinity s
  | Finite _, Infinity s => Infinity (negb s)
  | Finite x, Finite y => binary64 (x - y)
  end.

(** [Math.abs(a)] *)
Definition Math_abs (a : Number) : Number :=
  match a with
  | NaN => NaN
  | Infinity _ => Infinity false
  | Finite x => Finite (Qabs x)
  end.

(** [a < b]: false when either is [NaN]. *)
Definition less (a b : Number) : bool :=
  match a, b with
  | NaN, _ | _, NaN => false
  | Infinity s, Infinity s' => s && negb s'
  | Infinity s, Finite _ => s
  | Finite _, Infinity s => negb s
  | Finite x, Finite y => negb (Qle_bool y x)
  end.

(** [a === b] on numbers: [NaN] equals nothing. *)
Definition same_number (a b : Number) : bool :=
  match a, b with
  | Infinity s, Infinity s' => Bool.eqb s s'
  | Finite x, Finite y => Qeq_bool x y
  | _, _ => false
  end.

(** [Math.max(a, b)] and [Math.min(a, b)]: [NaN] when either is. *)
Definition Math_max (a b : Number) : Number :=
  match a, b with
  | NaN, _ | _, NaN => NaN
  | _, _ => if less a b then b else a
  end.

Definition Math_min (a b : Number) : Number :=
  match a, b with
  | NaN, _ | _, NaN => NaN
  | _, _ => if less b a then b else a
  end.

(** ** Data *)

(** A channel as [_refreshChannelList] keeps it.  Balances are the
    arbitrary-precision integers that ln-service reports. *)
Record Channel := {
  ch_id : string;
  ch_localAlias : string;
  ch_localPublicKey : string;
  ch_remotePublicKey : string;
  ch_localBalance : Z;
  ch_remoteBalance : Z;
  ch_capacity : Z;
  ch_isActive : bool
}.

(** An entry of [getChannels().channels]. *)
Record LndChannel := {
  lc_id : string;
  lc_partner_public_key : string;
  lc_local_balance : Z;
  lc_remote_balance : Z;
  lc_capacity : Z;
  lc_is_active : bool
}.

(** [{ remotePublicKey, socket }]; a socket is known by a number. *)
Record Connection := {
  conn_remotePublicKey : string;
  conn_socket : nat
}.

(** [{ channelId, remotePeer, remoteLightning }] *)
Record Owner := {
  own_channelId : string;
  own_remotePeer : string;
  own_remoteLightning : string
}.

(** [{ id, until }] of [blockedPending]. *)
Record Block := {
  blk_id : string;
  blk_until : Z
}.

Inductive TxState := pending | complete | failed.

(** An audit entry.  The timestamp is the one the [transactions] module
    stamps on it. *)
Record Transaction := {
  tx_paidTo : string;
  tx_paidBy : string;
  tx_channelId : string;
  tx_amount : Z;
  tx_invoice : string;
  tx_state : TxState;
  tx_timestamp : Z
}.

(** The fields of a [payInvoice] message.  [tokens] is the decimal string
    [toFixed(0)] made, read as the integer it spells. *)
Record PayRequest := {
  msg_invoice : string;
  msg_tokens : Z;
  msg_channelId : string;
  msg_paidTo : string;
  msg_paidBy : string
}.

(** What [Lightning.payInvoice] returns and what a [paymentResult] message
    adds to the fields of the request.  A field that the object does not
    carry, or carries as [null], is [None]. *)
Record PayResult := {
  res_allow : option bool;
  res_reason : option string;
  res_retryAt : option Z;
  res_paymentId : option string;
  res_confirmed : bool;
  res_confirmedAt : option string
}.

Inductive Message :=
| Hello (publicKey alias : string)
| PayInvoice (m : PayRequest)
| PaymentResult (m : PayRequest) (r : PayResult)
| Unknown (type : string).

(** [{ message, timestamp, signature }].  [timestamp] is the field as the
    number that [now - obj.timestamp] takes it for: [NaN] when the field is
    missing or holds what is no number. *)
Record Envelope := {
  env_message : Message;
  env_timestamp : Number;
  env_signature : string
}.

(** What [decodePaymentRequest] and [pay] of ln-service answer.  [tokens]
    is a number that holds an integer. *)
Record Decoded := {
  dec_tokens : Z;
  dec_destination : string
}.

Record Payment := {
  pay_id : option string;
  pay_is_confirmed : bool;
  pay_confirmed_at : option string
}.

(** What [_shouldPayInvoice] and [_denyPaymentReason] return:
    [{ allow, reason, retryAt }]. *)
Record Verdict := {
  v_allow : bool;
  v_reason : option string;
  v_retryAt : option Z
}.

(** [_shouldPayInvoice] returns a verdict object, or the bare boolean
    [false] after its [catch]. *)
Inductive ShouldPay :=
| SP_object (v : Verdict)
| SP_false.

(** ** The surroundings

    What the program asks of the world outside it during the run of one
    handler: [Date_now] is what [Date.now()] reads in that run; the
    helpers of util/ and the settings, whose files are not among the
    sources, and the calls of ln-service are functions of their
    arguments.  A duration setting is the string the settings file holds,
    and [timeToMilliseconds] turns it into milliseconds. *)

Record Env := {
  Date_now : Z;
  (* util/sign, JSON *)
  signMessage : string -> Number -> string -> Message -> string;
  JSON_parse : string -> option Envelope;
  (* ln-service; [None] stands for a rejected promise *)
  lnService_getChannels : option (list LndChannel);
  lnService_decodePaymentRequest : string -> option Decoded;
  lnService_pay : string -> string -> option (option Payment);
  lnService_createInvoice : Z -> option string;
  (* util/tightrope-settings and util/time-to-milliseconds *)
  timeToMilliseconds : string -> Z;
  settings_balancePoint : string -> string -> Q;
  settings_deadzone : string -> string -> Q;
  settings_maxTransactionSize : string -> string -> Q;
  settings_minTimeBetweenPayments : string -> string -> string;
  settings_limitsPeriod : string -> string;
  settings_useRollingLimitsPeriod : string -> bool;
  settings_maxTransactionsPerPeriod : string -> Z;
  settings_maxAmountPerPeriod : string -> Z
}.

(** ** The state *)

Record Tightrope := {
  secret : string;
  myPublicKey : string;
  activeConnections : list Connection;
  channelOwners : list Owner
}.

Record Lightning := {
  lnd : bool;                      (* [this.lnd] is set *)
  alias : string;
  publicKey : string;
  channels : list Channel;
  watchList : list string;
  blockedPending : list Block
}.

Inductive Effect :=
| SocketWrite (socket : nat) (e : Envelope)
| LnGetChannels
| LnDecodePaymentRequest (request : string)
| LnPay (request : string) (outgoing_channel : string)
| LnCreateInvoice (tokens : Z).

Inductive LogEntry :=
| logEvent (name : string)
| logError (text : string).

Record World := {
  tightrope : Tightrope;
  lightning : Lightning;
  transactions : list Transaction;
  effects : list Effect;
  log : list LogEntry
}.

(** ** State and exceptions *)

Inductive Outcome (A : Type) :=
| Returned (a : A)
| Thrown.
Arguments Thrown {A}.

Definition Js (A : Type) := World -> Outcome A * World.

Definition ret {A} (a : A) : Js A := fun w => (Returned a, w).

Definition bind {A B} (m : Js A) (k : A -> Js B) : Js B :=
  fun w => match m w with
           | (Returned a, w') => k a w'
           | (Thrown, w') => (Thrown, w')
           end.

Definition throw {A} : Js A := fun w => (Thrown, w).

(** [try { m } catch { h }]: what [m] did to the world before it threw
    stays done. *)
Definition try_catch {A} (m : Js A) (h : Js A) : Js A :=
  fun w => match m w with
           | (Returned a, w') => (Returned a, w')
           | (Thrown, w') => h w'
           end.

Notation "x <- m ;; k" := (bind m (fun x => k))
  (at level 61, m at next level, right associativity).
Notation "m ;;; k" := (bind m (fun _ => k))
  (at level 61, right associativity).

Definition get : Js World := fun w => (Returned w, w).
Definition modify (f : World -> World) : Js unit := fun w => (Returned tt, f w).

(** Field updates. *)
Definition set_tightrope (f : Tightrope -> Tightrope) (w : World) : World :=
  {| tightrope := f (tightrope w); lightning := lightning w;
     transactions := transactions w; effects := effects w; log := log w |}.

Definition set_lightning (f : Lightning -> Lightning) (w : World) : World :=
  {| tightrope := tightrope w; lightning := f (lightning w);
     transactions := transactions w; effects := effects w; log := log w |}.

Definition set_activeConnections (l : list Connection) (t : Tightrope) : Tightrope :=
  {| secret := secret t; myPublicKey := myPublicKey t;
     activeConnections := l; channelOwners := channelOwners t |}.

Definition set_channelOwners (l : list Owner) (t : Tightrope) : Tightrope :=
  {| secret := secret t; myPublicKey := myPublicKey t;
     activeConnections := activeConnections t; channelOwners := l |}.

Definition set_channels (l : list Channel) (n : Lightning) : Lightning :=
  {| lnd := lnd n; alias := alias n; publicKey := publicKey n;
     channels := l; watchList := watchList n; blockedPending := blockedPending n |}.

Definition set_watchList (l : list string) (n : Lightning) : Lightning :=
  {| lnd := lnd n; alias := alias n; publicKey := publicKey n;
     channels := channels n; watchList := l; blockedPending := blockedPending n |}.

Definition set_blockedPending (l : list Block) (n : Lightning) : Lightning :=
  {| lnd := lnd n; alias := alias n; publicKey := publicKey n;
     channels := channels n; watchList := watchList n; blockedPending := l |}.

(** The world with one more effect, log line or audit entry. *)
Definition with_effect (e : Effect) (w : World) : World :=
  {| tightrope := tightrope w; lightning := lightning w;
     transactions := transactions w; effects := effects w ++ [e]; log := log w |}.

Definition with_log (e : LogEntry) (w : World) : World :=
  {| tightrope := tightrope w; lightning := lightning w;
     transactions := transactions w; effects := effects w; log := log w ++ [e] |}.

Definition with_transaction (t : Transaction) (w : World) : World :=
  {| tightrope := tightrope w; lightning := lightning w;
     transactions := transactions w ++ [t]; effects := effects w; log := log w |}.

Definition perform (e : Effect) : Js unit := modify (with_effect e).

Definition logging (e : LogEntry) : Js unit := modify (with_log e).

(** An awaited ln-service promise: the call is recorded, a rejection
    throws. *)
Definition await {A} (e : Effect) (answer : option A) : Js A :=
  perform e ;;;
  match answer with
  | Some a => ret a
  | None => throw
  end.

Fixpoint forEach {A} (l : list A) (f : A -> Js unit) : Js unit :=
  match l with
  | [] => ret tt
  | x :: l' => f x ;;; forEach l' f
  end.

(** ** bignumber.js, as far as the program uses it

    [plus], [minus], [times] and [BigNumber.min] are exact, so a BigNumber
    is the rational it denotes; [div] rounds, and is [BigNumber_div]
    below.  A setting that is a number enters these operations as the
    decimal [String] spells for it, which is the decimal the settings
    hold.  Every value the program builds from balances and settings
    that are not negative is finite, and a zero among them carries the
    sign [+]. *)

(** [x.isPositive()] is [x.s > 0]: it holds of every value that is not
    negative, zero included. *)
Definition isPositive (x : Q) : bool := Qle_bool 0 x.

(** [x.toFixed(0)] with the default [ROUNDING_MODE] (4, [ROUND_HALF_UP]):
    the nearest integer, a tie going away from zero. *)
Definition toFixed0 (x : Q) : Z :=
  if Qle_bool 0 x then Qfloor (x + (1 # 2))%Q else - Qfloor (- x + (1 # 2))%Q.

(** [x.div(y)] on two integers, as the number a comparison takes it
    for.  bignumber.js rounds the quotient at 20 decimals
    ([DECIMAL_PLACES]), a half going away from zero ([ROUND_HALF_UP]), and
    a division by zero gives [NaN] or an infinity; [valueOf] spells the
    decimal, which JavaScript reads as the double nearest to it. *)
Definition BigNumber_div (x y : Z) : Number :=
  if y =? 0 then (if x =? 0 then NaN else Infinity (x <? 0))
  else binary64 (inject_Z (toFixed0 (inject_Z (x * 10 ^ 20) / inject_Z y))
                 / inject_Z (10 ^ 20)).

(** [+x] on a value that spells the integer [x]. *)
Definition toNumber (x : Z) : Number := binary64 (inject_Z x).

(** [localBalance.div(capacity) < threshold] *)
Definition local_below (channel : Channel) (threshold : Number) : bool :=
  less (BigNumber_div (ch_localBalance channel) (ch_capacity channel)) threshold.

(** [value || null] on a string that may be missing. *)
Definition or_null (s : option string) : option string :=
  match s with
  | Some "" => None
  | _ => s
  end.

(** A number in a template literal. *)
Definition show (z : Z) : string := DecimalString.NilZero.string_of_int (Z.to_int z).

Section Program.

Variable E : Env.

(** ** transactions *)

(** Modelled from the spec: [transactions.add], whose file
    (src/transactions.js) is not among the sources.  "Audit log contract.
    [add(entry)] append"; an Audit Transaction carries "timestamps", by
    which it is "queryable by (paidBy, since)".  [add] takes the entry
    without its timestamp and stamps it with the time of the call. *)
Definition transactions_add (entry : Z -> Transaction) : Js unit :=
  modify (with_transaction (entry (Date_now E))).

(** Modelled from the spec: [transactions.filter], of the same missing
    file.  "[filter({since, paidBy}) -> [entry]]", the query being for the
    "transactions where paidBy = self.lnPublicKey and timestamp >= since". *)
Definition transactions_filter (since : Z) (paidBy : string) : Js (list Transaction) :=
  w <- get ;;
  ret (filter (fun t => (since <=? tx_timestamp t) && (tx_paidBy t =? paidBy)%string)
              (transactions w)).

(** ** class Lightning *)

Definition _refreshChannelList : Js (list Channel) :=
  try_catch
    (w <- get ;;
     if negb (lnd (lightning w)) then
       modify (set_lightning (set_channels []))
     else
       channelList <- await LnGetChannels (lnService_getChannels E) ;;
       modify (set_lightning (fun n =>
         set_channels
           (map (fun c => {| ch_id := lc_id c;
                             ch_localAlias := alias n;
                             ch_localPublicKey := publicKey n;
                             ch_remotePublicKey := lc_partner_public_key c;
                             ch_localBalance := lc_local_balance c;
                             ch_remoteBalance := lc_remote_balance c;
                             ch_capacity := lc_capacity c;
                             ch_isActive := lc_is_active c |}) channelList) n)))
    (logging (logError "Failed to update the channel list") ;;;
     modify (set_lightning (set_channels []))) ;;;
  w <- get ;;
  ret (channels (lightning w)).

Definition findChannelsFromPubKey (lnPublicKey : string) : Js (list Channel) :=
  _refreshChannelList ;;;
  w <- get ;;
  ret (filter (fun c => (ch_remotePublicKey c =? lnPublicKey)%string) (channels (lightning w))).

Definition findChannelFromId (channelId : string) : Js (option Channel) :=
  _refreshChannelList ;;;
  w <- get ;;
  ret (find (fun c => (ch_id c =? channelId)%string) (channels (lightning w))).

Definition unwatchChannel (channelId : string) : Js unit :=
  w <- get ;;
  (if existsb (fun c => (c =? channelId)%string) (watchList (lightning w))
   then logging (logEvent "stopWatchingChannel")
   else ret tt) ;;;
  modify (set_lightning (fun n =>
    set_watchList (filter (fun c => negb (c =? channelId)%string) (watchList n)) n)).

Definition watchChannel (channelId : string) : Js unit :=
  unwatchChannel channelId ;;;
  modify (set_lightning (fun n => set_watchList (watchList n ++ [channelId]) n)) ;;;
  logging (logEvent "startWatchingChannel").

Definition _rateLimitRebalance (channel : Channel) : Js bool :=
  let now := Date_now E in
  modify (set_lightning (fun n =>
    set_blockedPending (filter (fun c => now <? blk_until c) (blockedPending n)) n)) ;;;
  w <- get ;;
  match find (fun c => (blk_id c =? ch_id channel)%string) (blockedPending (lightning w)) with
  | Some blocked => ret true
  | None =>
      let timeBetweenPayments :=
        timeToMilliseconds E
          (settings_minTimeBetweenPayments E (alias (lightning w)) (ch_id channel)) in
      modify (set_lightning (fun n =>
        set_blockedPending
          (blockedPending n ++ [{| blk_id := ch_id channel;
                                   blk_until := now + timeBetweenPayments |}]) n)) ;;;
      ret false
  end.

(** [{ allow: false, reason: 'invalid request' }] *)
Definition invalid_request : Verdict :=
  {| v_allow := false; v_reason := Some "invalid request"; v_retryAt := None |}.

Definition _denyPaymentReason (channelId : string) (amount : Z) : Js Verdict :=
  w <- get ;;
  let now := Date_now E in
  let limitsPeriod := settings_limitsPeriod E (alias (lightning w)) in
  let period := timeToMilliseconds E limitsPeriod in
  let rollingPeriod := settings_useRollingLimitsPeriod E (alias (lightning w)) in
  let since := if rollingPeriod then now - period else (now / period) * period in
  recent <- transactions_filter since (publicKey (lightning w)) ;;
  let maxTransactions := settings_maxTransactionsPerPeriod E (alias (lightning w)) in
  if maxTransactions <=? Z.of_nat (List.length recent) then
    ret {| v_allow := false;
           v_reason := Some (show (Z.of_nat (List.length recent)) ++ " transactions in last "
                             ++ limitsPeriod ++ ". Limit is " ++ show maxTransactions);
           v_retryAt := Some (since + period + 1) |}
  else
    let maxTotalAmount := settings_maxAmountPerPeriod E (alias (lightning w)) in
    let sumOfTransactions := fold_left (fun total t => total + tx_amount t) recent 0 in
    if maxTotalAmount <? sumOfTransactions + amount then
      ret {| v_allow := false;
             v_reason := Some (show (sumOfTransactions + amount) ++ " tokens sent in last "
                               ++ String.concat "," (map (fun _ => "[object Object]") recent)
                               ++ "ms. Limit is " ++ show maxTotalAmount);
             v_retryAt := Some (since + period + 1) |}
    else
      ret {| v_allow := true; v_reason := None; v_retryAt := None |}.

Definition _shouldPayInvoice (msg : PayRequest) : Js ShouldPay :=
  try_catch
    (let channelId := msg_channelId msg in
     let amount := msg_tokens msg in
     let paidTo := msg_paidTo msg in
     let request := msg_invoice msg in
     details <- await (LnDecodePaymentRequest request)
                      (lnService_decodePaymentRequest E request) ;;
     if negb (same_number (toNumber (dec_tokens details)) (toNumber amount)) then
       logging (logError "Rejected invoice as amount differs") ;;;
       ret (SP_object invalid_request)
     else if negb (dec_destination details =? paidTo)%string then
       logging (logError "Rejected invoice as payment destination does not match") ;;;
       ret (SP_object invalid_request)
     else
       channelInfo <- findChannelFromId channelId ;;
       match channelInfo with
       | None =>
           logging (logError "Rejected invoice as channel was not found locally") ;;;
           ret (SP_object invalid_request)
       | Some channelInfo =>
           if negb (ch_remotePublicKey channelInfo =? paidTo)%string then
             logging (logError "Rejected invoice as request remote does not match channel remote") ;;;
             ret (SP_object invalid_request)
           else
             denyReason <- _denyPaymentReason channelId amount ;;
             (if negb (v_allow denyReason)
              then logging (logError "Rejected invoice as node/channel is over its configured limits")
              else ret tt) ;;;
             ret (SP_object denyReason)
       end)
    (logging (logError "Failed to determine if an invoice should be paid") ;;;
     ret SP_false).

(** [!shouldPay.allow]: the bare [false] has no [allow]. *)
Definition allows (shouldPay : ShouldPay) : bool :=
  match shouldPay with
  | SP_object v => v_allow v
  | SP_false => false
  end.

(** [{ ...shouldPay, paymentId, confirmed, confirmedAt }]: spreading the
    bare [false] adds no field. *)
Definition spread (shouldPay : ShouldPay) (paymentId : option string)
    (confirmed : bool) (confirmedAt : option string) : PayResult :=
  match shouldPay with
  | SP_object v =>
      {| res_allow := Some (v_allow v); res_reason := v_reason v;
         res_retryAt := v_retryAt v; res_paymentId := paymentId;
         res_confirmed := confirmed; res_confirmedAt := confirmedAt |}
  | SP_false =>
      {| res_allow := None; res_reason := None; res_retryAt := None;
         res_paymentId := paymentId; res_confirmed := confirmed;
         res_confirmedAt := confirmedAt |}
  end.

(** The object of the last [return] of [payInvoice]. *)
Definition payment_failed : PayResult :=
  {| res_allow := None; res_reason := Some "payment failed"; res_retryAt := None;
     res_paymentId := None; res_confirmed := false; res_confirmedAt := None |}.

(** The [try] block either returns a result or falls through to the end
    of the function. *)
Definition payInvoice (msg : PayRequest) : Js PayResult :=
  returned <-
    try_catch
      (shouldPay <- _shouldPayInvoice msg ;;
       if negb (allows shouldPay) then
         ret (Some (spread shouldPay None false None))
       else
         payment <- await (LnPay (msg_invoice msg) (msg_channelId msg))
                          (lnService_pay E (msg_invoice msg) (msg_channelId msg)) ;;
         match payment with
         | Some payment =>
             if pay_is_confirmed payment then
               logging (logEvent "invoicePaid") ;;;
               ret (Some (spread shouldPay (or_null (pay_id payment))
                                 (pay_is_confirmed payment)
                                 (or_null (pay_confirmed_at payment))))
             else
               logging (logEvent "paymentFailed") ;;; ret None
         | None =>
             logging (logEvent "paymentFailed") ;;; ret None
         end)
      (logging (logError "Failed to pay invoice") ;;; ret None) ;;
  match returned with
  | Some result => ret result
  | None => ret payment_failed
  end.

(** [if (result.retryAt)]: a missing field and the number zero are falsy. *)
Definition truthy (retryAt : option Z) : bool :=
  match retryAt with
  | Some r => negb (r =? 0)
  | None => false
  end.

Definition confirmPayment (channelId : string) (confirmed : bool)
    (retryAt : option Z) : Js unit :=
  modify (set_lightning (fun n =>
    set_blockedPending
      (filter (fun c => negb (blk_id c =? channelId)%string) (blockedPending n)) n)) ;;;
  if negb confirmed then
    match retryAt with
    | Some r =>
        if truthy retryAt then
          modify (set_lightning (fun n =>
            set_blockedPending
              (blockedPending n ++ [{| blk_id := channelId; blk_until := r |}]) n))
        else ret tt
    | None => ret tt
    end
  else ret tt.

(** ** class Tightrope, the sending side *)

Definition _findConnection (remotePublicKey : string) (t : Tightrope) : option nat :=
  match find (fun c => (conn_remotePublicKey c =? remotePublicKey)%string)
             (activeConnections t) with
  | Some result => Some (conn_socket result)
  | None => None
  end.

Definition _sendMessage (to : string) (message : Message) : Js unit :=
  w <- get ;;
  match _findConnection to (tightrope w) with
  | None => logging (logError "Trying to send a message to unknown peer")
  | Some socket =>
      let timestamp := Date_now E in
      let signature :=
        signMessage E (secret (tightrope w)) timestamp (myPublicKey (tightrope w)) message in
      perform (SocketWrite socket
                 {| env_message := message; env_timestamp := timestamp;
                    env_signature := signature |})
  end.

(** The listener of [requestRebalance].  It has no [await], so [emit]
    runs it to its end. *)
Definition _onRequestRebalance (channel : Channel) (request : string) (tokens : Z)
    : Js unit :=
  w <- get ;;
  match find (fun c => (own_channelId c =? ch_id channel)%string)
             (channelOwners (tightrope w)) with
  | Some owner =>
      transactions_add (fun timestamp =>
        {| tx_paidTo := ch_localPublicKey channel;
           tx_paidBy := ch_remotePublicKey channel;
           tx_channelId := ch_id channel;
           tx_amount := tokens;
           tx_invoice := request;
           tx_state := pending;
           tx_timestamp := timestamp |}) ;;;
      logging (logEvent "onRequestRebalance") ;;;
      _sendMessage (own_remotePeer owner)
        (PayInvoice {| msg_invoice := request;
                       msg_tokens := tokens;
                       msg_channelId := ch_id channel;
                       msg_paidTo := ch_localPublicKey channel;
                       msg_paidBy := ch_remotePublicKey channel |})
  | None => ret tt
  end.

(** ** class Lightning, the watcher *)

Definition _rebalanceChannel (channel : Channel) (invoiceAmount : Q) : Js unit :=
  try_catch
    (limited <- _rateLimitRebalance channel ;;
     if limited then ret tt
     else
       let tokens := toFixed0 invoiceAmount in
       request <- await (LnCreateInvoice tokens) (lnService_createInvoice E tokens) ;;
       logging (logEvent "invoiceCreated") ;;;
       _onRequestRebalance channel request tokens)
    (logging (logError "rebalance channel failed")).

(** [Math.min(1, Math.max(0, balancePoint - deadzone))].  A setting is
    the decimal the settings hold; as a number it is the double nearest
    to it. *)
Definition rebalanceThreshold (balancePoint deadzone : Q) : Number :=
  Math_min 1 (Math_max 0 (subtract (binary64 balancePoint) (binary64 deadzone))).

(** [BigNumber.min(targetBalance.minus(localBalance), maxTransactionSize)] *)
Definition rebalanceAmount (channel : Channel) (balancePoint maxTransactionSize : Q) : Q :=
  let targetBalance :=
    (inject_Z (ch_localBalance channel + ch_remoteBalance channel) * balancePoint)%Q in
  let invoiceAmount := (targetBalance - inject_Z (ch_localBalance channel))%Q in
  Qmin invoiceAmount maxTransactionSize.

Definition _onConsiderChannelRebalance (channelId : string) : Js bool :=
  w <- get ;;
  match find (fun c => (ch_id c =? channelId)%string) (channels (lightning w)) with
  | None =>
      logging (logError "Watched channel missing") ;;;
      ret false
  | Some channel =>
      (if ch_isActive channel then
         let balancePoint := settings_balancePoint E (alias (lightning w)) channelId in
         let deadzone := settings_deadzone E (alias (lightning w)) channelId in
         if local_below channel (rebalanceThreshold balancePoint deadzone) then
           let maxTransactionSize :=
             settings_maxTransactionSize E (alias (lightning w)) channelId in
           let amount := rebalanceAmount channel balancePoint maxTransactionSize in
           if isPositive amount then _rebalanceChannel channel amount else ret tt
         else ret tt
       else ret tt) ;;;
      ret true
  end.

(** ** class Tightrope, sessions and inbound messages *)

Definition _removeActiveConnection (remotePublicKey : string) : Js unit :=
  modify (set_tightrope (fun t =>
    set_activeConnections
      (filter (fun c => negb (conn_remotePublicKey c =? remotePublicKey)%string)
              (activeConnections t)) t)) ;;;
  w <- get ;;
  forEach (channelOwners (tightrope w)) (fun c =>
    if (own_remotePeer c =? remotePublicKey)%string
    then unwatchChannel (own_channelId c)
    else ret tt) ;;;
  modify (set_tightrope (fun t =>
    set_channelOwners
      (filter (fun owner => negb (own_remotePeer owner =? remotePublicKey)%string)
              (channelOwners t)) t)).

Definition _addActiveConnection (remotePublicKey : string) (socket : nat) : Js unit :=
  _removeActiveConnection remotePublicKey ;;;
  modify (set_tightrope (fun t =>
    set_activeConnections
      (activeConnections t ++ [{| conn_remotePublicKey := remotePublicKey;
                                  conn_socket := socket |}]) t)).

Definition _onCloseConnection (remotePeer : string) : Js unit :=
  _removeActiveConnection remotePeer ;;;
  logging (logEvent "peerDisconnected").

(** The listener [_onOpenConnection] gives to the socket's [error]. *)
Definition socket_on_error (remotePublicKey : string) : Js unit :=
  logging (logError "Socket error").

Definition _onOpenConnection (socket : nat) (remotePublicKey : string) : Js unit :=
  logging (logEvent "peerConnected") ;;;
  _addActiveConnection remotePublicKey socket ;;;
  w <- get ;;
  _sendMessage remotePublicKey (Hello (publicKey (lightning w)) (alias (lightning w))).

(** The test [channels.length > 0] guards a [forEach] that does nothing
    on an empty array. *)
Definition _onHello (remotePeer : string) (publicKey alias : string) : Js unit :=
  logging (logEvent "peerHello") ;;;
  channels <- findChannelsFromPubKey publicKey ;;
  forEach channels (fun c =>
    logging (logEvent "peerSharedChannel") ;;;
    modify (set_tightrope (fun t =>
      set_channelOwners
        (filter (fun owner => negb (own_channelId owner =? ch_id c)%string)
                (channelOwners t)
         ++ [{| own_channelId := ch_id c; own_remotePeer := remotePeer;
                own_remoteLightning := publicKey |}]) t)) ;;;
    watchChannel (ch_id c)).

Definition _onPayInvoice (remotePeer : string) (msg : PayRequest) : Js unit :=
  logging (logEvent "onPayInvoice") ;;;
  result <- payInvoice msg ;;
  _sendMessage remotePeer (PaymentResult msg result).

Definition _onPaymentResult (remotePeer : string) (msg : PayRequest) (result : PayResult)
    : Js unit :=
  transactions_add (fun timestamp =>
    {| tx_paidTo := msg_paidTo msg;
       tx_paidBy := msg_paidBy msg;
       tx_channelId := msg_channelId msg;
       tx_amount := msg_tokens msg;
       tx_invoice := msg_invoice msg;
       tx_state := if res_confirmed result then complete else failed;
       tx_timestamp := timestamp |}) ;;;
  logging (logEvent "onPaymentResult") ;;;
  confirmPayment (msg_channelId msg) (res_confirmed result) (res_retryAt result).

Definition _onMessage (remotePeer : string) (data : string) : Js unit :=
  try_catch
    (match JSON_parse E data with
     | None => throw
     | Some obj =>
         w <- get ;;
         let signature :=
           signMessage E (secret (tightrope w)) (env_timestamp obj) remotePeer
                       (env_message obj) in
         if negb (signature =? env_signature obj)%string then
           logging (logError "Bad signature in incoming message")
         else
           let now := Date_now E in
           let age := Math_abs (subtract now (env_timestamp obj)) in
           if less 5000 age then
             logging (logError "Incoming message too old")
           else
             match env_message obj with
             | Hello publicKey alias => _onHello remotePeer publicKey alias
             | PayInvoice msg => _onPayInvoice remotePeer msg
             | PaymentResult msg result => _onPaymentResult remotePeer msg result
             | Unknown _ => logging (logError "Unknown message from peer")
             end
     end)
    (logging (logError "failed handling incoming message from peer")).


(** What [_refreshChannelList] leaves in [this.channels]. *)
Definition refreshedChannels (n : Lightning) : list Channel :=
  if lnd n then
    match lnService_getChannels E with
    | Some channelList =>
        map (fun c => {| ch_id := lc_id c;
                         ch_localAlias := alias n;
                         ch_localPublicKey := publicKey n;
                         ch_remotePublicKey := lc_partner_public_key c;
                         ch_localBalance := lc_local_balance c;
                         ch_remoteBalance := lc_remote_balance c;
                         ch_capacity := lc_capacity c;
                         ch_isActive := lc_is_active c |}) channelList
    | None => []
    end
  else [].

(** The world after [_refreshChannelList], [lines] having been logged. *)
Definition refreshed (lines : list LogEntry) (w : World) : World :=
  {| tightrope := tightrope w;
     lightning := set_channels (refreshedChannels (lightning w)) (lightning w);
     transactions := transactions w;
     effects := effects w ++ (if lnd (lightning w) then [LnGetChannels] else []);
     log := log w ++ lines |}.

(** [|now - timestamp| <= 5000], which holds of no timestamp that is not
    a finite number. *)
Definition fresh (now : Z) (timestamp : Number) : Prop :=
  match timestamp with
  | Finite t => (Qabs (inject_Z now - t) <= inject_Z 5000)%Q
  | _ => False
  end.

(** The two checks of [_onMessage] on the raw [data] a peer sent. *)
Definition accepted (w : World) (remotePeer data : string) : Prop :=
  exists obj,
    JSON_parse E data = Some obj /\
    signMessage E (secret (tightrope w)) (env_timestamp obj) remotePeer (env_message obj)
      = env_signature obj /\
    fresh (Date_now E) (env_timestamp obj).

(** The timestamp is an integer more than 5000 ms from now, or an
    infinity. *)
Definition stale (now : Z) (timestamp : Number) : Prop :=
  (exists t : Z, timestamp = integer t /\ 5000 < Z.abs (now - t))
  \/ (exists negative, timestamp = Infinity negative).

(** The block [_rateLimitRebalance] pushes for [channel]. *)
Definition cooldown (n : Lightning) (channel : Channel) : Block :=
  {| blk_id := ch_id channel;
     blk_until := Date_now E
       + timeToMilliseconds E (settings_minTimeBetweenPayments E (alias n) (ch_id channel)) |}.

(** The blocks [_rateLimitRebalance] keeps: those that end after now. *)
Definition live_blocks (n : Lightning) : list Block :=
  filter (fun c => Date_now E <? blk_until c) (blockedPending n).

(** The envelope [_sendMessage] writes for [message]. *)
Definition signed (t : Tightrope) (message : Message) : Envelope :=
  {| env_message := message;
     env_timestamp := Date_now E;
     env_signature := signMessage E (secret t) (Date_now E) (myPublicKey t) message |}.

(** The window of the rolling limits at [_denyPaymentReason]. *)
Definition limits_period (n : Lightning) : Z :=
  timeToMilliseconds E (settings_limitsPeriod E (alias n)).

Definition limits_since (n : Lightning) : Z :=
  if settings_useRollingLimitsPeriod E (alias n)
  then Date_now E - limits_period n
  else (Date_now E / limits_period n) * limits_period n.

End Program.

(** The audit entries of payer [paidBy] stamped at or after [since]. *)
Definition paid_since (paidBy : string) (since : Z) (t : Transaction) : bool :=
  (tx_paidBy t =? paidBy)%string && (since <=? tx_timestamp t).

Definition count_since (paidBy : string) (since : Z) (audit : list Transaction) : Z :=
  Z.of_nat (List.length (filter (paid_since paidBy since) audit)).

Definition amount_since (paidBy : string) (since : Z) (audit : list Transaction) : Z :=
  fold_right Z.add 0 (map tx_amount (filter (paid_since paidBy since) audit)).

(** The payload [_onRequestRebalance] sends for [channel]. *)
Definition rebalance_request (channel : Channel) (request : string) (tokens : Z)
    : PayRequest :=
  {| msg_invoice := request;
     msg_tokens := tokens;
     msg_channelId := ch_id channel;
     msg_paidTo := ch_localPublicKey channel;
     msg_paidBy := ch_remotePublicKey channel |}.

(** The entry [_onRequestRebalance] puts in the audit log. *)
Definition pending_entry (channel : Channel) (request : string) (tokens : Z)
    (timestamp : Z) : Transaction :=
  {| tx_paidTo := ch_localPublicKey channel;
     tx_paidBy := ch_remotePublicKey channel;
     tx_channelId := ch_id channel;
     tx_amount := tokens;
     tx_invoice := request;
     tx_state := pending;
     tx_timestamp := timestamp |}.

(** The effects of [w'] are those of [w] and, at most, the creation of an
    invoice of [tokens] and a signed [payInvoice] for it on [channel]. *)
Definition requests_only (E : Env) (w w' : World) (channel : Channel) (tokens : Z)
    : Prop :=
  forall e,
    In e (effects w') ->
    In e (effects w)
    \/ e = LnCreateInvoice tokens
    \/ exists socket request,
         e = SocketWrite socket
               (signed E (tightrope w)
                  (PayInvoice (rebalance_request channel request tokens))).

(** [z] is the integer nearest to [x], the upper one of two. *)
Definition nearest (z : Z) (x : Q) : Prop :=
  (inject_Z z - (1 # 2) <= x /\ x < inject_Z z + (1 # 2))%Q.

(** [channelId] is the channel of a record of [owners] that names
    [remotePeer]. *)
Definition owned_by (remotePeer : string) (owners : list Owner) (channelId : string)
    : bool :=
  existsb (fun c => (own_remotePeer c =? remotePeer)%string
                    && (own_channelId c =? channelId)%string) owners.

(** The world once [remotePublicKey] is forgotten: its sessions and
    ownership records are gone, the channels of those records are off the
    watch list, and [lines] were logged. *)
Definition forgotten (remotePublicKey : string) (lines : list LogEntry) (w : World)
    : World :=
  {| tightrope :=
       {| secret := secret (tightrope w);
          myPublicKey := myPublicKey (tightrope w);
          activeConnections :=
            filter (fun c => negb (conn_remotePublicKey c =? remotePublicKey)%string)
                   (activeConnections (tightrope w));
          channelOwners :=
            filter (fun owner => negb (own_remotePeer owner =? remotePublicKey)%string)
                   (channelOwners (tightrope w)) |};
     lightning :=
       set_watchList
         (filter (fun id => negb (owned_by remotePublicKey (channelOwners (tightrope w)) id))
                 (watchList (lightning w)))
         (lightning w);
     transactions := transactions w;
     effects := effects w;
     log := log w ++ lines |}.

(** The result [payInvoice] makes of the verdict [invalid_request]. *)
Definition refused : PayResult :=
  {| res_allow := Some false; res_reason := Some "invalid request";
     res_retryAt := None; res_paymentId := None; res_confirmed := false;
     res_confirmedAt := None |}.

(** The result [payInvoice] makes of the bare [false]. *)
Definition unexplained : PayResult :=
  {| res_allow := None; res_reason := None; res_retryAt := None;
     res_paymentId := None; res_confirmed := false; res_confirmedAt := None |}.

Definition is_pay (e : Effect) : bool :=
  match e with
  | LnPay _ _ => true
  | _ => false
  end.

(** [m] takes every world to one that [R] relates to it, whether it
    returns or throws. *)
Definition respects {A} (R : World -> World -> Prop) (m : Js A) : Prop :=
  forall w, R w (snd (m w)).

(** The part [f] of the world is as it was. *)
Definition same {X} (f : World -> X) : World -> World -> Prop :=
  fun w w' => f w' = f w.

(** Every effect is one that was there or one that satisfies [P]. *)
Definition grows (P : Effect -> Prop) : World -> World -> Prop :=
  fun w w' => forall e, In e (effects w') -> In e (effects w) \/ P e.

(** A [payInvoice] written to a socket. *)
Definition is_payInvoice (e : Effect) : bool :=
  match e with
  | SocketWrite _ envelope =>
      match env_message envelope with
      | PayInvoice _ => true
      | _ => false
      end
  | _ => false
  end.

(** What the program reacts to: the swarm's [connection], a socket's
    [data], [close] and [error], and the look of the poll at one watched
    channel. *)
Inductive Event :=
| connection (socket : nat) (remotePublicKey : string)
| data (remotePeer : string) (raw : string)
| close (remotePeer : string)
| error (remotePeer : string)
| consider (channelId : string).

Definition handle (E : Env) (event : Event) : Js unit :=
  match event with
  | connection socket remotePublicKey => _onOpenConnection E socket remotePublicKey
  | data remotePeer raw => _onMessage E remotePeer raw
  | close remotePeer => _onCloseConnection remotePeer
  | error remotePeer => socket_on_error remotePeer
  | consider channelId => _onConsiderChannelRebalance E channelId ;;; ret tt
  end.

(** The world after the rate limiter let [channel] through, and after
    the invoice of [tokens] was asked for. *)
Definition cooled (E : Env) (channel : Channel) (w : World) : World :=
  set_lightning
    (set_blockedPending (live_blocks E (lightning w) ++ [cooldown E (lightning w) channel]))
    w.

Definition invoiced (E : Env) (channel : Channel) (tokens : Z) (w : World) : World :=
  with_effect (LnCreateInvoice tokens) (cooled E channel w).

(** ** A two-node cluster to run the program on

    Node A (alias [A], LN key [lnA], mesh key [meshA]) and node B share
    channel [C1]; the secret is ["s"]. *)
Module Scenario.

(** The timestamp in the text that is signed. *)
Definition stamp (timestamp : Number) : string :=
  match timestamp with
  | NaN => "NaN"
  | Infinity negative => if negative then "-Infinity" else "Infinity"
  | Finite t => show (Qfloor t)
  end.

Definition sign (secret : string) (timestamp : Number) (key : string) (m : Message)
    : string :=
  secret ++ ":" ++ stamp timestamp ++ ":" ++ key.

Definition minutes5 := "5m".
Definition day := "1d".

Definition toMs (s : string) : Z :=
  if (s =? minutes5)%string then 300000 else 86400000.

(** The surroundings of a node: the clock, what a peer's [data] parses
    to, and the answers of its LN node. *)
Definition env (now : Z) (parsed : option Envelope)
    (getChannels : option (list LndChannel))
    (decode : option Decoded) (pay : option (option Payment))
    (createInvoice : option string) (balancePoint : Q) (maxTransactions : Z) : Env :=
  {| Date_now := now;
     signMessage := sign;
     JSON_parse := fun _ => parsed;
     lnService_getChannels := getChannels;
     lnService_decodePaymentRequest := fun _ => decode;
     lnService_pay := fun _ _ => pay;
     lnService_createInvoice := fun _ => createInvoice;
     timeToMilliseconds := toMs;
     settings_balancePoint := fun _ _ => balancePoint;
     settings_deadzone := fun _ _ => (1 # 20)%Q;
     settings_maxTransactionSize := fun _ _ => 500000%Q;
     settings_minTimeBetweenPayments := fun _ _ => minutes5;
     settings_limitsPeriod := fun _ => day;
     settings_useRollingLimitsPeriod := fun _ => true;
     settings_maxTransactionsPerPeriod := fun _ => maxTransactions;
     settings_maxAmountPerPeriod := fun _ => 1000000 |}.

Definition now0 : Z := 1700000000000.

(** Channel [C1] as A sees it. *)
Definition channelA (localBalance remoteBalance : Z) : Channel :=
  {| ch_id := "C1"; ch_localAlias := "A"; ch_localPublicKey := "lnA";
     ch_remotePublicKey := "lnB"; ch_localBalance := localBalance;
     ch_remoteBalance := remoteBalance; ch_capacity := 1000001;
     ch_isActive := true |}.

(** Channel [C1] as B's LN node lists it. *)
Definition lndChannelB : LndChannel :=
  {| lc_id := "C1"; lc_partner_public_key := "lnA"; lc_local_balance := 900000;
     lc_remote_balance := 100000; lc_capacity := 1000001; lc_is_active := true |}.

Definition ownerB : Owner :=
  {| own_channelId := "C1"; own_remotePeer := "meshB"; own_remoteLightning := "lnB" |}.

(** Node A, greeted by B, watching [C1]. *)
Definition nodeA (localBalance remoteBalance : Z) (blocks : list Block) : World :=
  {| tightrope :=
       {| secret := "s"; myPublicKey := "meshA";
          activeConnections := [{| conn_remotePublicKey := "meshB"; conn_socket := 1%nat |}];
          channelOwners := [ownerB] |};
     lightning :=
       {| lnd := true; alias := "A"; publicKey := "lnA";
          channels := [channelA localBalance remoteBalance];
          watchList := ["C1"]; blockedPending := blocks |};
     transactions := []; effects := []; log := [] |}.

(** Node B, connected to A. *)
Definition nodeB (audit : list Transaction) : World :=
  {| tightrope :=
       {| secret := "s"; myPublicKey := "meshB";
          activeConnections := [{| conn_remotePublicKey := "meshA"; conn_socket := 7%nat |}];
          channelOwners := [] |};
     lightning :=
       {| lnd := true; alias := "B"; publicKey := "lnB";
          channels := []; watchList := []; blockedPending := [] |};
     transactions := audit; effects := []; log := [] |}.

(** A's request to B: pay 400000 tokens into [C1]. *)
Definition request : PayRequest :=
  {| msg_invoice := "lnbc1"; msg_tokens := 400000; msg_channelId := "C1";
     msg_paidTo := "lnA"; msg_paidBy := "lnB" |}.

Definition decoded (destination : string) : Decoded :=
  {| dec_tokens := 400000; dec_destination := destination |}.

Definition paid : Payment :=
  {| pay_id := Some "p1"; pay_is_confirmed := true; pay_confirmed_at := Some "2023-11-14" |}.

(** B's surroundings when the request arrives. *)
Definition envB (decode : option Decoded) (pay : option (option Payment)) : Env :=
  env now0 None (Some [lndChannelB]) decode pay None (1 # 2)%Q 10.

(** A's surroundings at a tick. *)
Definition envA (balancePoint : Q) : Env :=
  env now0 None (Some []) None None (Some "lnbc1") balancePoint 10.

(** Surroundings that differ in the amount a period allows. *)
Definition allowing (maxAmount : Z) (E : Env) : Env :=
  {| Date_now := Date_now E;
     signMessage := signMessage E;
     JSON_parse := JSON_parse E;
     lnService_getChannels := lnService_getChannels E;
     lnService_decodePaymentRequest := lnService_decodePaymentRequest E;
     lnService_pay := lnService_pay E;
     lnService_createInvoice := lnService_createInvoice E;
     timeToMilliseconds := timeToMilliseconds E;
     settings_balancePoint := settings_balancePoint E;
     settings_deadzone := settings_deadzone E;
     settings_maxTransactionSize := settings_maxTransactionSize E;
     settings_minTimeBetweenPayments := settings_minTimeBetweenPayments E;
     settings_limitsPeriod := settings_limitsPeriod E;
     settings_useRollingLimitsPeriod := settings_useRollingLimitsPeriod E;
     settings_maxTransactionsPerPeriod := settings_maxTransactionsPerPeriod E;
     settings_maxAmountPerPeriod := fun _ => maxAmount |}.

(** A result that was not confirmed and names no time to retry at. *)
Definition not_confirmed : PayResult :=
  {| res_allow := None; res_reason := Some "payment failed"; res_retryAt := None;
     res_paymentId := None; res_confirmed := false; res_confirmedAt := None |}.

(** An entry of B's audit log. *)
Definition paidByB (timestamp : Z) : Transaction :=
  {| tx_paidTo := "lnA"; tx_paidBy := "lnB"; tx_channelId := "C1"; tx_amount := 400000;
     tx_invoice := "lnbc0"; tx_state := complete; tx_timestamp := timestamp |}.

End Scenario.

(** ** Shapes the state keeps *)

(** [P] holds afterwards if it held before. *)
Definition holds_after (P : World -> Prop) : World -> World -> Prop :=
  fun w w' => P w -> P w'.

(** At most one session for a mesh key. *)
Definition unique_sessions (w : World) : Prop :=
  NoDup (map conn_remotePublicKey (activeConnections (tightrope w))).

(** At most one ownership record for a channel. *)
Definition unique_owners (w : World) : Prop :=
  NoDup (map own_channelId (channelOwners (tightrope w))).

(** No channel is on the watch list twice. *)
Definition unique_watches (w : World) : Prop :=
  NoDup (watchList (lightning w)).

(** At most one block for a channel. *)
Definition unique_blocks (w : World) : Prop :=
  NoDup (map blk_id (blockedPending (lightning w))).

(** A write to a socket, whatever the message. *)
Definition is_write (e : Effect) : bool :=
  match e with
  | SocketWrite _ _ => true
  | _ => false
  end.

(** The record a greeting of [remotePeer], of LN key [publicKey], leaves
    for channel [c], and the step of the loop of [_onHello] on the
    ownership records and on the watch list. *)
Definition greeted (remotePeer publicKey : string) (c : Channel) : Owner :=
  {| own_channelId := ch_id c; own_remotePeer := remotePeer;
     own_remoteLightning := publicKey |}.

Definition greet_owner (remotePeer publicKey : string) (owners : list Owner)
    (c : Channel) : list Owner :=
  filter (fun owner => negb (own_channelId owner =? ch_id c)%string) owners
  ++ [greeted remotePeer publicKey c].

Definition greet_watch (watched : list string) (c : Channel) : list string :=
  filter (fun x => negb (x =? ch_id c)%string) watched ++ [ch_id c].

(** The rolling limits leave room for [amount]. *)
Definition within_limits (E : Env) (w : World) (amount : Z) : Prop :=
  let n := lightning w in
  count_since (publicKey n) (limits_since E n) (transactions w)
    < settings_maxTransactionsPerPeriod E (alias n)
  /\ amount_since (publicKey n) (limits_since E n) (transactions w) + amount
       <= settings_maxAmountPerPeriod E (alias n).

(** Every check of [_shouldPayInvoice] passes on [msg]: the amounts are
    the same number, the destination and the channel are those of the
    request, and the limits leave room. *)
Definition payable (E : Env) (msg : PayRequest) (w : World) : Prop :=
  exists details channelInfo,
    lnService_decodePaymentRequest E (msg_invoice msg) = Some details
    /\ same_number (toNumber (dec_tokens details)) (toNumber (msg_tokens msg)) = true
    /\ dec_destination details = msg_paidTo msg
    /\ find (fun c => (ch_id c =? msg_channelId msg)%string)
            (refreshedChannels E (lightning w)) = Some channelInfo
    /\ ch_remotePublicKey channelInfo = msg_paidTo msg
    /\ within_limits E w (msg_tokens msg).

(** [m] returns, whatever the world: nothing it throws gets out. *)
Definition returns {A} (m : Js A) : Prop :=
  forall w, exists a w', m w = (Returned a, w').

(** The audit log of [w'] is that of [w] with entries added at its end. *)
Definition appended (w w' : World) : Prop :=
  exists added, transactions w' = (transactions w ++ added)%list.

(** * Reasoning about [Js] computations *)

Unset Implicit Arguments.

#[global] Instance same_PreOrder {X} (f : World -> X) : PreOrder (same f).
Proof.
  split.
  - intro w. reflexivity.
  - intros w1 w2 w3 H12 H23. unfold same in *. congruence.
Qed.

#[global] Instance grows_PreOrder (P : Effect -> Prop) : PreOrder (grows P).
Proof.
  split.
  - intros w e He. left. exact He.
  - intros w1 w2 w3 H12 H23 e He.
    destruct (H23 e He) as [H|H]; [apply H12; exact H | right; exact H].
Qed.

Section Respects.

Context (R : World -> World -> Prop) `{!PreOrder R}.

Lemma respects_ret A (a : A) : respects R (ret a).
Proof. intro w. reflexivity. Qed.

Lemma respects_throw A : respects R (@throw A).
Proof. intro w. reflexivity. Qed.

Lemma respects_get : respects R get.
Proof. intro w. reflexivity. Qed.

Lemma respects_modify g : (forall w, R w (g w)) -> respects R (modify g).
Proof. intros H w. apply H. Qed.

Lemma respects_bind A B (m : Js A) (k : A -> Js B) :
  respects R m -> (forall a, respects R (k a)) -> respects R (bind m k).
Proof.
  intros Hm Hk w. unfold bind. specialize (Hm w).
  destruct (m w) as [[a|] w1]; simpl in *.
  - transitivity w1; [exact Hm | apply Hk].
  - exact Hm.
Qed.

Lemma respects_try_catch A (m h : Js A) :
  respects R m -> respects R h -> respects R (try_catch m h).
Proof.
  intros Hm Hh w. unfold try_catch. specialize (Hm w).
  destruct (m w) as [[a|] w1]; simpl in *.
  - exact Hm.
  - transitivity w1; [exact Hm | apply Hh].
Qed.

Lemma respects_forEach A (l : list A) (k : A -> Js unit) :
  (forall a, respects R (k a)) -> respects R (forEach l k).
Proof.
  intro Hk. induction l as [|x l IH]; simpl.
  - apply respects_ret.
  - apply respects_bind; auto.
Qed.

End Respects.

(** A change of the world that adds no effect. *)
Lemma grows_silent (P : Effect -> Prop) (w w' : World) :
  effects w' = effects w -> grows P w w'.
Proof. intros H e He. left. rewrite <- H. exact He. Qed.

(** One more effect, which satisfies [P]. *)
Lemma grows_with_effect (P : Effect -> Prop) (e : Effect) (w : World) :
  P e -> grows P w (with_effect e w).
Proof.
  intros HP e' He'. simpl in He'. apply in_app_or in He'.
  destruct He' as [H|[<-|[]]]; [left; exact H | right; exact HP].
Qed.

(** Running a [bind] whose first part is known. *)
Lemma bind_returned {A B} (m : Js A) (k : A -> Js B) (w w' : World) (a : A) :
  m w = (Returned a, w') -> bind m k w = k a w'.
Proof. intro H. unfold bind. rewrite H. reflexivity. Qed.

Lemma bind_thrown {A B} (m : Js A) (k : A -> Js B) (w w' : World) :
  m w = (Thrown, w') -> bind m k w = (Thrown, w').
Proof. intro H. unfold bind. rewrite H. reflexivity. Qed.

Lemma try_catch_returned {A} (m h : Js A) (w w' : World) (a : A) :
  m w = (Returned a, w') -> try_catch m h w = (Returned a, w').
Proof. intro H. unfold try_catch. rewrite H. reflexivity. Qed.

Lemma try_catch_thrown {A} (m h : Js A) (w w' : World) :
  m w = (Thrown, w') -> try_catch m h w = h w'.
Proof. intro H. unfold try_catch. rewrite H. reflexivity. Qed.

Lemma await_resolved {A} (e : Effect) (answer : option A) (a : A) (w : World) :
  answer = Some a -> await e answer w = (Returned a, with_effect e w).
Proof. intros ->. reflexivity. Qed.

Lemma await_rejected {A} (e : Effect) (w : World) :
  await e (@None A) w = (Thrown, with_effect e w).
Proof. reflexivity. Qed.

(** One step of a frame proof: split the computation at its head; at a
    leaf, the part kept is untouched, or the effect added is as asked. *)
Ltac leaf :=
  first [ reflexivity
        | apply grows_silent; reflexivity
        | apply grows_with_effect; reflexivity ].

Ltac respects_step :=
  match goal with
  | |- respects _ (bind _ _) => apply respects_bind; [ exact _ | | intro ]
  | |- respects _ (try_catch _ _) => apply respects_try_catch; [ exact _ | | ]
  | |- respects _ (ret _) => apply respects_ret; exact _
  | |- respects _ throw => apply respects_throw; exact _
  | |- respects _ get => apply respects_get; exact _
  | |- respects _ (forEach _ _) => apply respects_forEach; [ exact _ | intro ]
  | |- respects _ (modify _) => apply respects_modify; intro; leaf
  | |- respects _ (logging _) => apply respects_modify; intro; leaf
  | |- respects _ (perform _) => apply respects_modify; intro; leaf
  | |- respects _ (transactions_add _ _) => apply respects_modify; intro; leaf
  | |- respects _ (await _ _) => unfold await
  | |- respects _ (if ?b then _ else _) => destruct b
  | |- respects _ (match ?x with _ => _ end) => destruct x
  | |- respects _ (let _ := _ in _) => cbv zeta
  end.

Ltac respects_all := repeat respects_step.

(** ** What each function leaves alone *)

Section Frames.

Variable E : Env.

Lemma _refreshChannelList_keeps_transactions : respects (same transactions) (_refreshChannelList E).
Proof. unfold _refreshChannelList. respects_all. Qed.

Lemma _refreshChannelList_keeps_tightrope : respects (same tightrope) (_refreshChannelList E).
Proof. unfold _refreshChannelList. respects_all. Qed.

Lemma _denyPaymentReason_keeps_world channelId amount w :
  snd (_denyPaymentReason E channelId amount w) = w.
Proof.
  unfold _denyPaymentReason, transactions_filter, bind, get, ret. simpl.
  repeat match goal with |- context [if ?b then _ else _] => destruct b end; reflexivity.
Qed.

Lemma _shouldPayInvoice_keeps_transactions msg :
  respects (same transactions) (_shouldPayInvoice E msg).
Proof.
  unfold _shouldPayInvoice, findChannelFromId. respects_all;
    try apply _refreshChannelList_keeps_transactions.
  all: intro w; rewrite _denyPaymentReason_keeps_world; reflexivity.
Qed.

Lemma _shouldPayInvoice_keeps_tightrope msg :
  respects (same tightrope) (_shouldPayInvoice E msg).
Proof.
  unfold _shouldPayInvoice, findChannelFromId. respects_all;
    try apply _refreshChannelList_keeps_tightrope.
  all: intro w; rewrite _denyPaymentReason_keeps_world; reflexivity.
Qed.


Lemma payInvoice_keeps_tightrope msg : respects (same tightrope) (payInvoice E msg).
Proof.
  unfold payInvoice. respects_all; try apply _shouldPayInvoice_keeps_tightrope.
Qed.


End Frames.

(** * Numbers

    What the rounding to a double leaves exact. *)

Lemma Qred_inject_Z (z : Z) : Qred (inject_Z z) = inject_Z z.
Proof.
  unfold Qred, inject_Z.
  pose proof (Z.ggcd_gcd z 1) as Hg.
  pose proof (Z.ggcd_correct_divisors z 1) as Hd.
  destruct (Z.ggcd z 1) as [g [a b]]. simpl in Hg, Hd.
  rewrite Z.gcd_1_r in Hg. subst g. destruct Hd as [Ha Hb].
  rewrite Z.mul_1_l in Ha, Hb. subst a b. reflexivity.
Qed.

Lemma exponent_integer (a : Z) : 0 < a -> exponent a 1 = Z.log2 a.
Proof.
  intro Ha. unfold exponent, scale. change (Z.log2 1) with 0. rewrite Z.sub_0_r.
  pose proof (Z.log2_nonneg a) as Hl.
  pose proof (Z.log2_spec a Ha) as [Hlo _].
  rewrite (Z.max_r 0 (Z.log2 a)) by lia.
  rewrite (Z.max_l 0 (- Z.log2 a)) by lia.
  change (2 ^ 0) with 1.
  destruct (1 * 2 ^ Z.log2 a <=? a * 1) eqn:Hc; [reflexivity|].
  apply Z.leb_gt in Hc. lia.
Qed.

Lemma nearest_even_integer (n : Z) : nearest_even n 1 = n.
Proof.
  unfold nearest_even. rewrite Z.mod_1_r, Z.div_1_r. reflexivity.
Qed.

Lemma scale_nonpos (z e : Z) : e <= 0 -> scale z e = z.
Proof.
  intro He. unfold scale. rewrite Z.max_l by lia. apply Z.mul_1_r.
Qed.

Lemma scale_nonneg (z e : Z) : 0 <= e -> scale z e = z * 2 ^ e.
Proof.
  intro He. unfold scale. rewrite Z.max_r by lia. reflexivity.
Qed.

(** An integer of fewer than 54 bits is a double. *)
Lemma binary64_integer (z : Z) : Z.abs z < 2 ^ 53 -> binary64 (inject_Z z) = integer z.
Proof.
  intro Hz. unfold binary64. rewrite Qred_inject_Z.
  cbn [Qnum Qden inject_Z].
  destruct (z =? 0) eqn:Hzero.
  { apply Z.eqb_eq in Hzero. subst z. reflexivity. }
  apply Z.eqb_neq in Hzero.
  assert (Ha : 0 < Z.abs z) by lia.
  rewrite (exponent_integer _ Ha).
  assert (Hlog : Z.log2 (Z.abs z) < 53) by (apply Z.log2_lt_pow2; lia).
  pose proof (Z.log2_nonneg (Z.abs z)) as Hl.
  set (l := Z.log2 (Z.abs z)) in *.
  rewrite (Z.max_l (l - 52) (-1074)) by lia.
  rewrite (scale_nonpos 1 (l - 52)) by lia.
  rewrite nearest_even_integer.
  rewrite (scale_nonneg (Z.abs z) (- (l - 52))) by lia.
  rewrite (scale_nonpos _ (l - 52)) by lia.
  rewrite (scale_nonneg 1 (- (l - 52))) by lia.
  assert (Hp : 0 < 2 ^ (- (l - 52))) by (apply Z.pow_pos_nonneg; lia).
  assert (Hsmall : (2 ^ 1024 <=? Z.abs z * 2 ^ (- (l - 52))) = false).
  { apply Z.leb_gt.
    assert (Hm : Z.abs z * 2 ^ (- (l - 52)) < 2 ^ (l + 1) * 2 ^ (- (l - 52))).
    { apply Z.mul_lt_mono_pos_r; [exact Hp|]. apply Z.log2_spec. exact Ha. }
    rewrite <- Z.pow_add_r in Hm by lia.
    replace (l + 1 + - (l - 52)) with 53 in Hm by lia.
    assert (2 ^ 53 < 2 ^ 1024) by (apply Z.pow_lt_mono_r; lia). lia. }
  rewrite Hsmall, andb_false_r.
  unfold integer. f_equal.
  rewrite <- (Qred_inject_Z z). apply Qred_complete.
  unfold Qeq, inject_Z. cbn [Qnum Qden].
  rewrite Z.mul_1_l, Z2Pos.id by exact Hp.
  rewrite Z.mul_1_r, Z.mul_assoc, (Z.mul_comm (Z.sgn z)), Z.abs_sgn. reflexivity.
Qed.

Lemma binary64_integer_value (q : Q) (z : Z) :
  q == inject_Z z -> Z.abs z < 2 ^ 53 -> binary64 q = integer z.
Proof.
  intros Hq Hz. rewrite <- (binary64_integer z Hz).
  unfold binary64. rewrite (Qred_complete _ _ Hq). reflexivity.
Qed.

Lemma nearest_even_floor (n d : Z) : n / d <= nearest_even n d.
Proof.
  unfold nearest_even.
  destruct (2 * (n mod d) ?= d); [destruct (Z.even (n / d))| |]; lia.
Qed.

(** A larger integer rounds to an infinity or to a double that is not
    below [2 ^ 53]. *)
Lemma binary64_large (z : Z) (q : Q) :
  2 ^ 53 <= Z.abs z -> binary64 (inject_Z z) = Finite q -> (inject_Z (2 ^ 53) <= Qabs q)%Q.
Proof.
  intros Hz. unfold binary64. rewrite Qred_inject_Z. cbn [Qnum Qden inject_Z].
  assert (Hpos : 0 < 2 ^ 53) by (apply Z.pow_pos_nonneg; lia).
  destruct (z =? 0) eqn:Hzero; [apply Z.eqb_eq in Hzero; lia|].
  assert (Ha : 0 < Z.abs z) by lia.
  rewrite (exponent_integer _ Ha).
  assert (Hlog : 53 <= Z.log2 (Z.abs z)) by (apply Z.log2_le_pow2; lia).
  set (l := Z.log2 (Z.abs z)) in *.
  rewrite (Z.max_l (l - 52) (-1074)) by lia.
  rewrite (scale_nonpos (Z.abs z) (- (l - 52))) by lia.
  rewrite (scale_nonneg 1 (l - 52)) by lia.
  rewrite (scale_nonpos 1 (- (l - 52))) by lia.
  rewrite (scale_nonneg _ (l - 52)) by lia.
  rewrite Z.mul_1_l.
  set (m := nearest_even (Z.abs z) (2 ^ (l - 52))).
  assert (He : 0 < 2 ^ (l - 52)) by (apply Z.pow_pos_nonneg; lia).
  assert (Hm : 2 ^ 52 <= m).
  { apply Z.le_trans with (Z.abs z / 2 ^ (l - 52)); [|apply nearest_even_floor].
    apply Z.div_le_lower_bound; [exact He|].
    rewrite <- Z.pow_add_r by lia. replace (l - 52 + 52) with l by lia.
    apply Z.log2_spec. exact Ha. }
  assert (Hv : 2 ^ 53 <= m * 2 ^ (l - 52)).
  { change (2 ^ 53) with (2 ^ 52 * 2 ^ 1).
    apply Z.mul_le_mono_nonneg; try lia.
    apply Z.pow_le_mono_r; lia. }
  destruct ((0 <=? l - 52) && (2 ^ 1024 <=? m * 2 ^ (l - 52))); [discriminate|].
  intro H.
  apply (f_equal (fun r => match r with Finite x => x | _ => 0%Q end)) in H.
  cbv beta iota in H. subst q.
  match goal with
  | |- (_ <= Qabs (Qred ?x))%Q =>
      assert (Heq : Qabs (Qred x) == Qabs x) by (apply Qabs_wd, Qred_correct)
  end.
  rewrite Heq. unfold Qabs, Qle, inject_Z. cbn [Qnum Qden].
  change (Z.to_pos 1) with 1%positive. rewrite !Z.mul_1_r.
  assert (Hs : Z.abs (Z.sgn z) = 1) by lia.
  rewrite Z.abs_mul, Hs, Z.mul_1_l, Z.abs_eq by lia. exact Hv.
Qed.

(** The test [age > 5000] of [_onMessage] on a timestamp that is an
    integer is the test on integers. *)
Lemma age_of_integer (now t : Z) :
  less 5000 (Math_abs (subtract now t)) = (5000 <? Z.abs (now - t)).
Proof.
  assert (Hq : inject_Z now - inject_Z t == inject_Z (now - t)).
  { unfold Z.sub. rewrite inject_Z_plus, inject_Z_opp. reflexivity. }
  cbn [subtract integer].
  destruct (Z_lt_le_dec (Z.abs (now - t)) (2 ^ 53)) as [Hsmall|Hlarge].
  - rewrite (binary64_integer_value _ _ Hq Hsmall).
    unfold integer, less, Math_abs, Qle_bool, Qabs, inject_Z. cbn [Qnum Qden].
    rewrite !Z.mul_1_r.
    destruct (5000 <? Z.abs (now - t)) eqn:Hc.
    + apply Z.ltb_lt in Hc. apply negb_true_iff, Z.leb_gt. exact Hc.
    + apply Z.ltb_ge in Hc. apply negb_false_iff, Z.leb_le. exact Hc.
  - assert (Hold : (5000 <? Z.abs (now - t)) = true).
    { apply Z.ltb_lt. assert (5000 < 2 ^ 53) by reflexivity. lia. }
    rewrite Hold.
    assert (Hb : binary64 (inject_Z now - inject_Z t) = binary64 (inject_Z (now - t))).
    { unfold binary64. rewrite (Qred_complete _ _ Hq). reflexivity. }
    rewrite Hb.
    destruct (binary64 (inject_Z (now - t))) as [|s|q] eqn:Hr.
    + unfold binary64 in Hr.
      destruct (Qnum (Qred (inject_Z (now - t))) =? 0); [discriminate|].
      destruct (_ && _); discriminate.
    + reflexivity.
    + pose proof (binary64_large _ _ Hlarge Hr) as Hq53.
      cbn [Math_abs less integer]. apply negb_true_iff.
      destruct (Qle_bool (Qabs q) (inject_Z 5000)) eqn:Hle; [|reflexivity].
      apply Qle_bool_iff in Hle.
      assert (H53 : (inject_Z 5000 < inject_Z (2 ^ 53))%Q) by reflexivity.
      exfalso. apply (Qlt_irrefl (inject_Z 5000)).
      eapply Qlt_le_trans; [exact H53|]. eapply Qle_trans; [exact Hq53 | exact Hle].
Qed.

(** Integers of fewer than 54 bits are the same number only when they
    are the same integer. *)
Lemma same_number_safe (a b : Z) :
  Z.abs a < 2 ^ 53 -> Z.abs b < 2 ^ 53 ->
  same_number (binary64 (inject_Z a)) (binary64 (inject_Z b)) = (a =? b).
Proof.
  intros Ha Hb. rewrite (binary64_integer a Ha), (binary64_integer b Hb).
  unfold same_number, integer, Qeq_bool, inject_Z. cbn [Qnum Qden].
  rewrite !Z.mul_1_r. reflexivity.
Qed.

(** A timestamp that is an integer is fresh when it is within 5000 of
    now. *)
Lemma fresh_integer (now t : Z) : fresh now t <-> Z.abs (now - t) <= 5000.
Proof.
  assert (Hq : Qabs (inject_Z now - inject_Z t) == inject_Z (Z.abs (now - t))).
  { assert (H : inject_Z now - inject_Z t == inject_Z (now - t)).
    { unfold Z.sub. rewrite inject_Z_plus, inject_Z_opp. reflexivity. }
    rewrite H. reflexivity. }
  cbn [fresh integer]. rewrite Hq, <- Zle_Qle. reflexivity.
Qed.
(** * The audit log at the two ends of a rebalance *)



(** * The cooldown on a payment result *)

Section Cooldown.

Variables (channelId : string) (w : World).

(** A confirmed result removes every block of the channel. *)
Lemma confirmPayment_confirmed retryAt :
  blockedPending (lightning (snd (confirmPayment channelId true retryAt w))) =
    filter (fun c => negb (blk_id c =? channelId)%string) (blockedPending (lightning w)).
Proof. reflexivity. Qed.

(** A failed result that carries a [retryAt] other than zero leaves one
    block of the channel, until [retryAt]. *)
Lemma confirmPayment_retryAt r :
  r <> 0 ->
  blockedPending (lightning (snd (confirmPayment channelId false (Some r) w))) =
    (filter (fun c => negb (blk_id c =? channelId)%string) (blockedPending (lightning w))
     ++ [{| blk_id := channelId; blk_until := r |}])%list.
Proof.
  intro Hr. unfold confirmPayment, bind, modify. simpl.
  destruct (r =? 0) eqn:Hz; [apply Z.eqb_eq in Hz; contradiction | reflexivity].
Qed.

(** A failed result without [retryAt] removes every block of the channel
    as well: the filter at the head of [confirmPayment] runs whatever the
    result says. *)
Lemma confirmPayment_failed :
  blockedPending (lightning (snd (confirmPayment channelId false None w))) =
    filter (fun c => negb (blk_id c =? channelId)%string) (blockedPending (lightning w)).
Proof. reflexivity. Qed.

Lemma no_block_after_filter b :
  In b (filter (fun c => negb (blk_id c =? channelId)%string) (blockedPending (lightning w))) ->
  blk_id b <> channelId.
Proof.
  intro H. apply filter_In in H. destruct H as [_ H].
  apply negb_true_iff in H. apply String.eqb_neq in H. exact H.
Qed.

End Cooldown.

(** C2, where the code departs from it: A dispatches a rebalance of [C1]
    at [now0], which blocks the channel until [now0] plus the five minutes
    of [minTimeBetweenPayments]; B's result then says [confirmed = false]
    and carries no [retryAt].  The block does not stay: the list of blocks
    is empty. *)
Theorem failed_result_without_retryAt_drops_the_block :
  let E := Scenario.envA (1 # 2) in
  let dispatched := snd (_onConsiderChannelRebalance E "C1" (Scenario.nodeA 100000 900000 [])) in
  let answered :=
    snd (_onPaymentResult E "meshB" Scenario.request Scenario.not_confirmed dispatched) in
  blockedPending (lightning dispatched) =
    [{| blk_id := "C1"; blk_until := Scenario.now0 + 300000 |}]
  /\ blockedPending (lightning answered) = [].
Proof. vm_compute. split; reflexivity. Qed.

(** * Inbound messages *)

(** A message that parses, is signed and whose age is not above 5000
    reaches the handler of its type. *)
Lemma verified_message_is_handled :
  forall (E : Env) (w : World) (remotePeer data : string) (obj : Envelope),
    JSON_parse E data = Some obj ->
    signMessage E (secret (tightrope w)) (env_timestamp obj) remotePeer (env_message obj)
      = env_signature obj ->
    less 5000 (Math_abs (subtract (Date_now E) (env_timestamp obj))) = false ->
    _onMessage E remotePeer data w =
      try_catch
        match env_message obj with
        | Hello publicKey alias => _onHello E remotePeer publicKey alias
        | PayInvoice msg => _onPayInvoice E remotePeer msg
        | PaymentResult msg result => _onPaymentResult E remotePeer msg result
        | Unknown _ => logging (logError "Unknown message from peer")
        end
        (logging (logError "failed handling incoming message from peer")) w.
Proof.
  intros E w remotePeer data obj Hparse Hsig Hage.
  unfold _onMessage, try_catch. rewrite Hparse.
  unfold bind at 1. unfold get at 1. cbv zeta.
  apply String.eqb_eq in Hsig. rewrite Hsig. simpl negb. cbv iota.
  rewrite Hage. reflexivity.
Qed.

(** C3, at the failing input: a [hello] whose envelope carries no
    timestamp, signed over what it carries, arrives at B on the session of
    [meshA].  Its age is [NaN], which is not above 5000, and the handler
    runs: B lists its channels, records [meshA] as the owner of [C1] and
    watches it. *)
Theorem unstamped_message_is_handled :
  let unstamped :=
    {| env_message := Hello "lnA" "A";
       env_timestamp := NaN;
       env_signature := "s:NaN:meshA" |} in
  let E := Scenario.env Scenario.now0 (Some unstamped) (Some [Scenario.lndChannelB])
             None None None (1 # 2) 10 in
  let w' := snd (_onMessage E "meshA" "{}" (Scenario.nodeB [])) in
  less 5000 (Math_abs (subtract (Date_now E) (env_timestamp unstamped))) = false
  /\ channelOwners (tightrope w') =
       [{| own_channelId := "C1"; own_remotePeer := "meshA"; own_remoteLightning := "lnA" |}]
  /\ watchList (lightning w') = ["C1"]
  /\ effects w' = [LnGetChannels].
Proof. vm_compute. repeat split; reflexivity. Qed.

(** X20: a message whose data does not parse, whose signature is not the
    one recomputed from the secret, the received timestamp, the sender's
    mesh key and the payload, or whose timestamp is an integer more than
    5000 ms from now or an infinity, is dropped: [_onMessage] returns with
    one error line added to the log and nothing else of the world changed
    (no handler ran, nothing was written to any socket, the sessions are
    as they were). *)
Theorem unverified_message_is_dropped :
  forall (E : Env) (w : World) (remotePeer data : string),
    (forall obj,
       JSON_parse E data = Some obj ->
       signMessage E (secret (tightrope w)) (env_timestamp obj) remotePeer
         (env_message obj) <> env_signature obj
       \/ stale (Date_now E) (env_timestamp obj)) ->
    exists text,
      _onMessage E remotePeer data w = (Returned tt, with_log (logError text) w).
Proof.
  intros E w remotePeer data Hno.
  unfold _onMessage, try_catch.
  destruct (JSON_parse E data) as [obj|] eqn:Hparse.
  - unfold bind at 1. unfold get at 1. cbv zeta.
    destruct (signMessage E (secret (tightrope w)) (env_timestamp obj) remotePeer
                (env_message obj) =? env_signature obj)%string eqn:Hsig; simpl negb;
      cbv iota.
    + destruct (Hno obj eq_refl) as [Hbad|[[t [Ht Hold]]|[negative Hinf]]].
      * apply String.eqb_eq in Hsig. contradiction.
      * rewrite Ht, age_of_integer. apply Z.ltb_lt in Hold. rewrite Hold.
        eexists. reflexivity.
      * rewrite Hinf. eexists. reflexivity.
    + eexists. reflexivity.
  - eexists. reflexivity.
Qed.

(** S3: a correctly signed message that is 10 s old. *)
Lemma unverified_message_is_dropped_witness :
  let stale_message :=
    {| env_message := PayInvoice Scenario.request;
       env_timestamp := Scenario.now0 - 10000;
       env_signature := "s:1699999990000:meshA" |} in
  let E := Scenario.env Scenario.now0 (Some stale_message) (Some [Scenario.lndChannelB])
             (Some (Scenario.decoded "lnA")) (Some (Some Scenario.paid)) None (1 # 2) 10 in
  exists text,
    _onMessage E "meshA" "{}" (Scenario.nodeB []) =
      (Returned tt, with_log (logError text) (Scenario.nodeB [])).
Proof.
  cbv zeta. apply unverified_message_is_dropped.
  intros obj Hparse. simpl in Hparse. injection Hparse as <-.
  right. left. exists (Scenario.now0 - 10000). split; [reflexivity|].
  vm_compute. reflexivity.
Defined.
(** * The rolling limits of the payer *)

Lemma reduce_is_sum (l : list Transaction) (total : Z) :
  fold_left (fun total t => total + tx_amount t) l total =
    total + fold_right Z.add 0 (map tx_amount l).
Proof.
  revert total. induction l as [|t l IH]; intro total; simpl.
  - lia.
  - rewrite IH. lia.
Qed.

Lemma transactions_filter_is_paid_since since paidBy w :
  transactions_filter since paidBy w =
    (Returned (filter (paid_since paidBy since) (transactions w)), w).
Proof.
  unfold transactions_filter, bind, get, ret. f_equal. f_equal.
  apply filter_ext. intro t. unfold paid_since. apply andb_comm.
Qed.

(** C4: with [since] the start of the window ([now - period] when the
    limits roll, [floor(now / period) * period] otherwise),
    [_denyPaymentReason] allows a payment of [amount] exactly when the
    audit entries paid by this node and stamped at or after [since] are
    fewer than [maxTransactionsPerPeriod] and their amounts plus [amount]
    do not exceed [maxAmountPerPeriod]; a verdict that does not allow
    carries [retryAt = since + period + 1]. *)
Theorem rolling_limits_acceptance :
  forall (E : Env) (w : World) (channelId : string) (amount : Z),
    let n := lightning w in
    let period := limits_period E n in
    let since := limits_since E n in
    let count := count_since (publicKey n) since (transactions w) in
    let total := amount_since (publicKey n) since (transactions w) in
    0 < period ->
    exists verdict,
      _denyPaymentReason E channelId amount w = (Returned verdict, w)
      /\ (v_allow verdict = true <->
          count < settings_maxTransactionsPerPeriod E (alias n)
          /\ total + amount <= settings_maxAmountPerPeriod E (alias n))
      /\ (v_allow verdict = false -> v_retryAt verdict = Some (since + period + 1)).
Proof.
  intros E w channelId amount n period since count total _.
  unfold _denyPaymentReason. unfold bind at 1. unfold get at 1. cbv zeta.
  fold n. fold (limits_period E n). fold period.
  change (if settings_useRollingLimitsPeriod E (alias n)
          then Date_now E - period else Date_now E / period * period) with since.
  unfold bind at 1. rewrite transactions_filter_is_paid_since.
  fold (count_since (publicKey n) since (transactions w)). fold count.
  rewrite reduce_is_sum, Z.add_0_l.
  fold (amount_since (publicKey n) since (transactions w)). fold total.
  destruct (settings_maxTransactionsPerPeriod E (alias n) <=? count) eqn:Hcount.
  - eexists. split; [reflexivity|]. simpl. apply Z.leb_le in Hcount. split.
    + split; [discriminate | lia].
    + reflexivity.
  - apply Z.leb_gt in Hcount.
    destruct (settings_maxAmountPerPeriod E (alias n) <? total + amount) eqn:Hsum.
    + eexists. split; [reflexivity|]. simpl. apply Z.ltb_lt in Hsum. split.
      * split; [discriminate | lia].
      * reflexivity.
    + eexists. split; [reflexivity|]. simpl. apply Z.ltb_ge in Hsum. split.
      * split; [intros _; split; assumption | reflexivity].
      * discriminate.
Qed.

(** S4: B has paid its two transactions of the day. *)
Lemma rolling_limits_acceptance_witness :
  let E := Scenario.env Scenario.now0 None (Some [Scenario.lndChannelB])
             (Some (Scenario.decoded "lnA")) (Some (Some Scenario.paid)) None (1 # 2) 2 in
  let w := Scenario.nodeB [Scenario.paidByB (Scenario.now0 - 7200000);
                           Scenario.paidByB (Scenario.now0 - 3600000)] in
  0 < limits_period E (lightning w)
  /\ exists verdict,
       _denyPaymentReason E "C1" 400000 w = (Returned verdict, w)
       /\ (v_allow verdict = true <-> 2 < 2 /\ 800000 + 400000 <= 1000000)
       /\ (v_allow verdict = false ->
           v_retryAt verdict = Some (Scenario.now0 - 86400000 + 86400000 + 1)).
Proof.
  cbv zeta. split; [reflexivity|].
  apply (rolling_limits_acceptance
           (Scenario.env Scenario.now0 None (Some [Scenario.lndChannelB])
              (Some (Scenario.decoded "lnA")) (Some (Some Scenario.paid)) None (1 # 2) 2)
           (Scenario.nodeB [Scenario.paidByB (Scenario.now0 - 7200000);
                            Scenario.paidByB (Scenario.now0 - 3600000)])
           "C1" 400000).
  reflexivity.
Defined.

(** * The watcher: cooldown and dispatch *)

Section Rebalance.

Variables (E : Env) (channel : Channel) (w : World).

Abbreviation live := (live_blocks E (lightning w)).
Abbreviation same_channel := (fun c : Block => (blk_id c =? ch_id channel)%string).

(** [_rateLimitRebalance], case by case. *)
Lemma _rateLimitRebalance_run :
  _rateLimitRebalance E channel w =
    match find same_channel live with
    | Some _ => (Returned true, set_lightning (set_blockedPending live) w)
    | None => (Returned false, cooled E channel w)
    end.
Proof.
  unfold _rateLimitRebalance, bind, modify, get, ret. simpl.
  fold (live_blocks E (lightning w)).
  destruct (find same_channel live); reflexivity.
Qed.

(** A block of the channel that ends after now survives the sweep of
    the expired ones and is found. *)
Lemma live_block_is_found (b : Block) :
  In b (blockedPending (lightning w)) ->
  blk_id b = ch_id channel ->
  Date_now E < blk_until b ->
  exists b', find same_channel live = Some b'.
Proof.
  intros Hin Hid Hlive.
  destruct (find same_channel live) as [b'|] eqn:Hfind; [eauto|].
  exfalso.
  assert (Hb : same_channel b = false).
  { apply (find_none _ _ Hfind b).
    apply filter_In. split; [exact Hin | apply Z.ltb_lt; exact Hlive]. }
  simpl in Hb. apply String.eqb_neq in Hb. contradiction.
Qed.

Variable invoiceAmount : Q.

Abbreviation tokens := (toFixed0 invoiceAmount).
Abbreviation w2 := (invoiced E channel (toFixed0 invoiceAmount) w).

(** [_rebalanceChannel], case by case. *)
Lemma _rebalanceChannel_run :
  _rebalanceChannel E channel invoiceAmount w =
    match find same_channel live with
    | Some _ => (Returned tt, set_lightning (set_blockedPending live) w)
    | None =>
        match lnService_createInvoice E tokens with
        | None => (Returned tt, with_log (logError "rebalance channel failed") w2)
        | Some request =>
            let w3 := with_log (logEvent "invoiceCreated") w2 in
            match find (fun c => (own_channelId c =? ch_id channel)%string)
                       (channelOwners (tightrope w)) with
            | None => (Returned tt, w3)
            | Some owner =>
                let w4 :=
                  with_log (logEvent "onRequestRebalance")
                    (with_transaction (pending_entry channel request tokens (Date_now E))
                       w3) in
                match _findConnection (own_remotePeer owner) (tightrope w) with
                | None =>
                    (Returned tt,
                     with_log (logError "Trying to send a message to unknown peer") w4)
                | Some socket =>
                    (Returned tt,
                     with_effect
                       (SocketWrite socket
                          (signed E (tightrope w)
                             (PayInvoice (rebalance_request channel request tokens))))
                       w4)
                end
            end
        end
    end.
Proof.
  unfold _rebalanceChannel, try_catch. unfold bind at 1.
  rewrite _rateLimitRebalance_run.
  destruct (find same_channel live); [reflexivity|].
  unfold await, perform, logging, bind, modify, ret, throw. simpl.
  fold (invoiced E channel tokens w).
  destruct (lnService_createInvoice E tokens) as [request|]; [|reflexivity].
  unfold _onRequestRebalance, _sendMessage, transactions_add, perform, logging,
    bind, modify, get, ret.
  simpl.
  destruct (find (fun c => (own_channelId c =? ch_id channel)%string)
                 (channelOwners (tightrope w))) as [owner|]; [|reflexivity].
  simpl.
  destruct (_findConnection (own_remotePeer owner) (tightrope w)); reflexivity.
Qed.

(** What [_rebalanceChannel] adds to the effects: at most the creation
    of an invoice of [tokens] and a [payInvoice] of that invoice for
    [tokens] on the channel. *)
Lemma _rebalanceChannel_effects (e : Effect) :
  In e (effects (snd (_rebalanceChannel E channel invoiceAmount w))) ->
  In e (effects w)
  \/ e = LnCreateInvoice tokens
  \/ exists socket request,
       e = SocketWrite socket
             (signed E (tightrope w)
                (PayInvoice (rebalance_request channel request tokens))).
Proof.
  rewrite _rebalanceChannel_run.
  destruct (find same_channel live); [simpl; auto|].
  destruct (lnService_createInvoice E tokens) as [request|];
    [|simpl; intro H; apply in_app_or in H; destruct H as [H|[H|[]]]; auto].
  cbv zeta.
  destruct (find (fun c => (own_channelId c =? ch_id channel)%string)
                 (channelOwners (tightrope w))) as [owner|];
    [|simpl; intro H; apply in_app_or in H; destruct H as [H|[H|[]]]; auto].
  destruct (_findConnection (own_remotePeer owner) (tightrope w)) as [socket|];
    simpl; intro H.
  - apply in_app_or in H. destruct H as [H|[H|[]]].
    + apply in_app_or in H. destruct H as [H|[H|[]]]; auto.
    + right. right. exists socket, request. symmetry. exact H.
  - apply in_app_or in H. destruct H as [H|[H|[]]]; auto.
Qed.

End Rebalance.

(** [_onConsiderChannelRebalance], case by case. *)
Lemma _onConsiderChannelRebalance_run (E : Env) (channelId : string) (w : World) :
  _onConsiderChannelRebalance E channelId w =
    match find (fun c => (ch_id c =? channelId)%string) (channels (lightning w)) with
    | None => (Returned false, with_log (logError "Watched channel missing") w)
    | Some channel =>
        let balancePoint := settings_balancePoint E (alias (lightning w)) channelId in
        let deadzone := settings_deadzone E (alias (lightning w)) channelId in
        let amount :=
          rebalanceAmount channel balancePoint
            (settings_maxTransactionSize E (alias (lightning w)) channelId) in
        if ch_isActive channel
           && local_below channel (rebalanceThreshold balancePoint deadzone)
           && isPositive amount
        then (_rebalanceChannel E channel amount ;;; ret true) w
        else (Returned true, w)
    end.
Proof.
  unfold _onConsiderChannelRebalance. unfold bind at 1. unfold get at 1.
  destruct (find (fun c => (ch_id c =? channelId)%string) (channels (lightning w)))
    as [channel|]; [|reflexivity].
  cbv zeta.
  destruct (ch_isActive channel); [|reflexivity].
  destruct (local_below channel _); [|reflexivity].
  destruct (isPositive _); reflexivity.
Qed.

(** * The amount a tick asks for *)

(** [toFixed(0)] on a value that is not negative. *)
Lemma toFixed0_nearest (x : Q) : (0 <= x)%Q -> nearest (toFixed0 x) x.
Proof.
  intro Hx. unfold toFixed0, nearest.
  apply Qle_bool_iff in Hx. rewrite Hx.
  pose proof (Qfloor_le (x + (1 # 2))) as Hlo.
  pose proof (Qlt_floor (x + (1 # 2))) as Hhi.
  rewrite inject_Z_plus in Hhi. change (inject_Z 1) with 1%Q in Hhi.
  split; lra.
Qed.

Lemma isPositive_false (x : Q) : isPositive x = false <-> (x < 0)%Q.
Proof.
  unfold isPositive. split.
  - intro H. apply Qnot_le_lt. intro Hle. apply Qle_bool_iff in Hle. congruence.
  - intro H. destruct (Qle_bool 0 x) eqn:Hb; [|reflexivity].
    apply Qle_bool_iff in Hb. lra.
Qed.

(** Against C5 as stated: a tick on [C1] with 300001 tokens on A's side
    of 1000001 and the balance point at 3/4.  The channel is active and
    below the threshold, the amount is 449999.75, capped at 500000; the
    invoice and the [payInvoice] are for 450000 tokens, and rounding down
    gives 449999. *)
Lemma amount_is_not_rounded_down :
  let E := Scenario.envA (3 # 4) in
  let channel := Scenario.channelA 300001 700000 in
  let w := Scenario.nodeA 300001 700000 [] in
  ch_isActive channel = true
  /\ local_below channel (rebalanceThreshold (3 # 4) (1 # 20)) = true
  /\ Qfloor (Qmin (inject_Z (300001 + 700000) * (3 # 4) - inject_Z 300001) 500000)
       = 449999
  /\ effects (snd (_onConsiderChannelRebalance E "C1" w)) =
       [ LnCreateInvoice 450000;
         SocketWrite 1
           {| env_message :=
                PayInvoice {| msg_invoice := "lnbc1"; msg_tokens := 450000;
                              msg_channelId := "C1"; msg_paidTo := "lnA";
                              msg_paidBy := "lnB" |};
              env_timestamp := Scenario.now0;
              env_signature := "s:1700000000000:meshA" |} ].
Proof. vm_compute. repeat split; reflexivity. Qed.

(** C5, as the code has it: on a watched channel that is active and out
    of balance, with [amount] the minimum of
    [(localBalance + remoteBalance) * balancePoint - localBalance] and
    [maxTransactionSize], every invoice the tick creates and every
    [payInvoice] it sends is for [amount] rounded to the nearest integer,
    a half going up; and when [amount] is negative nothing is dispatched:
    the world is left as it was. *)
Theorem requested_amount_is_rounded_to_nearest :
  forall (E : Env) (w : World) (channelId : string) (channel : Channel),
    let balancePoint := settings_balancePoint E (alias (lightning w)) channelId in
    let deadzone := settings_deadzone E (alias (lightning w)) channelId in
    let maxTransactionSize := settings_maxTransactionSize E (alias (lightning w)) channelId in
    let amount :=
      Qmin (inject_Z (ch_localBalance channel + ch_remoteBalance channel) * balancePoint
            - inject_Z (ch_localBalance channel)) maxTransactionSize in
    let w' := snd (_onConsiderChannelRebalance E channelId w) in
    find (fun c => (ch_id c =? channelId)%string) (channels (lightning w)) = Some channel ->
    ch_isActive channel = true ->
    local_below channel (rebalanceThreshold balancePoint deadzone) = true ->
    ((0 <= amount)%Q -> nearest (toFixed0 amount) amount)
    /\ requests_only E w w' channel (toFixed0 amount)
    /\ ((amount < 0)%Q -> w' = w).
Proof.
  intros E w channelId channel balancePoint deadzone maxTransactionSize amount w'
         Hfind Hactive Hbelow.
  split; [apply toFixed0_nearest|].
  assert (Hrun : _onConsiderChannelRebalance E channelId w =
                 if isPositive amount
                 then (_rebalanceChannel E channel amount ;;; ret true) w
                 else (Returned true, w)).
  { rewrite _onConsiderChannelRebalance_run, Hfind. cbv zeta.
    fold balancePoint deadzone maxTransactionSize.
    rewrite Hactive, Hbelow. reflexivity. }
  subst w'. rewrite Hrun.
  destruct (isPositive amount) eqn:Hpos.
  - split.
    + intros e He. apply _rebalanceChannel_effects.
      unfold bind in He.
      destruct (_rebalanceChannel E channel amount w) as [[[]|] w1]; exact He.
    + intro Hneg. apply isPositive_false in Hneg. congruence.
  - split.
    + intros e He. left. exact He.
    + intros _. reflexivity.
Qed.

Lemma requested_amount_is_rounded_to_nearest_witness :
  let E := Scenario.envA (3 # 4) in
  let channel := Scenario.channelA 300001 700000 in
  let w := Scenario.nodeA 300001 700000 [] in
  let amount := Qmin (inject_Z (300001 + 700000) * (3 # 4) - inject_Z 300001) 500000 in
  find (fun c => (ch_id c =? "C1")%string) (channels (lightning w)) = Some channel
  /\ ch_isActive channel = true
  /\ local_below channel (rebalanceThreshold (3 # 4) (1 # 20)) = true
  /\ ((0 <= amount)%Q -> nearest 450000 amount)
  /\ requests_only E w (snd (_onConsiderChannelRebalance E "C1" w)) channel 450000
  /\ ((amount < 0)%Q -> snd (_onConsiderChannelRebalance E "C1" w) = w).
Proof.
  cbv zeta.
  split; [reflexivity|]. split; [reflexivity|]. split; [reflexivity|].
  apply (requested_amount_is_rounded_to_nearest (Scenario.envA (3 # 4))
           (Scenario.nodeA 300001 700000 []) "C1" (Scenario.channelA 300001 700000));
    reflexivity.
Defined.

(** An amount of exactly zero passes [isPositive]: with 400000 tokens on
    each side of [C1] the channel is below the threshold, the amount is
    0, and an invoice and a [payInvoice] for 0 tokens go out. *)
Lemma zero_amount_is_dispatched :
  let E := Scenario.envA (1 # 2) in
  let w := Scenario.nodeA 400000 400000 [] in
  rebalanceAmount (Scenario.channelA 400000 400000) (1 # 2) 500000 == 0
  /\ effects (snd (_onConsiderChannelRebalance E "C1" w)) =
       [ LnCreateInvoice 0;
         SocketWrite 1
           (signed E (tightrope w)
              (PayInvoice (rebalance_request (Scenario.channelA 400000 400000)
                             "lnbc1" 0))) ].
Proof. vm_compute. split; reflexivity. Qed.

(** * Who writes [payInvoice]

    Every handler but the watcher's adds only effects that are not a
    [payInvoice]. *)

Section Quiet.

Variable E : Env.

Abbreviation quiet := (grows (fun e => is_payInvoice e = false)).

Lemma _refreshChannelList_quiet : respects quiet (_refreshChannelList E).
Proof. unfold _refreshChannelList. respects_all. Qed.

Lemma _denyPaymentReason_quiet channelId amount :
  respects quiet (_denyPaymentReason E channelId amount).
Proof.
  intro w. rewrite _denyPaymentReason_keeps_world. reflexivity.
Qed.

Lemma _shouldPayInvoice_quiet msg : respects quiet (_shouldPayInvoice E msg).
Proof.
  unfold _shouldPayInvoice, findChannelFromId. respects_all;
    first [ apply _refreshChannelList_quiet | apply _denyPaymentReason_quiet ].
Qed.

Lemma payInvoice_quiet msg : respects quiet (payInvoice E msg).
Proof. unfold payInvoice. respects_all; apply _shouldPayInvoice_quiet. Qed.

Lemma _onPayInvoice_quiet remotePeer msg : respects quiet (_onPayInvoice E remotePeer msg).
Proof.
  unfold _onPayInvoice, _sendMessage. respects_all; apply payInvoice_quiet.
Qed.

Lemma unwatchChannel_quiet channelId : respects quiet (unwatchChannel channelId).
Proof. unfold unwatchChannel. respects_all. Qed.

Lemma _onHello_quiet remotePeer publicKey alias :
  respects quiet (_onHello E remotePeer publicKey alias).
Proof.
  unfold _onHello, findChannelsFromPubKey, watchChannel. respects_all;
    first [ apply _refreshChannelList_quiet | apply unwatchChannel_quiet ].
Qed.

Lemma _onPaymentResult_quiet remotePeer msg result :
  respects quiet (_onPaymentResult E remotePeer msg result).
Proof. unfold _onPaymentResult, confirmPayment. respects_all. Qed.

Lemma _onMessage_quiet remotePeer raw : respects quiet (_onMessage E remotePeer raw).
Proof.
  unfold _onMessage. respects_all;
    first [ apply _onHello_quiet | apply _onPayInvoice_quiet | apply _onPaymentResult_quiet ].
Qed.

Lemma _removeActiveConnection_quiet remotePublicKey :
  respects quiet (_removeActiveConnection remotePublicKey).
Proof. unfold _removeActiveConnection. respects_all; apply unwatchChannel_quiet. Qed.

Lemma _onCloseConnection_quiet remotePeer : respects quiet (_onCloseConnection remotePeer).
Proof. unfold _onCloseConnection. respects_all; apply _removeActiveConnection_quiet. Qed.

Lemma _onOpenConnection_quiet socket remotePublicKey :
  respects quiet (_onOpenConnection E socket remotePublicKey).
Proof.
  unfold _onOpenConnection, _addActiveConnection, _sendMessage. respects_all;
    apply _removeActiveConnection_quiet.
Qed.

End Quiet.

Section Gate.

Variables (E : Env) (w : World).

(** [channelId] has a block that ends after now. *)
Abbreviation blocked channelId :=
  (exists b, In b (blockedPending (lightning w))
             /\ blk_id b = channelId /\ Date_now E < blk_until b).

(** A blocked channel is skipped: nothing is asked of the LN node,
    nothing is written, nothing is recorded. *)
Lemma blocked_channel_is_skipped (channel : Channel) (invoiceAmount : Q) :
  blocked (ch_id channel) ->
  effects (snd (_rebalanceChannel E channel invoiceAmount w)) = effects w
  /\ transactions (snd (_rebalanceChannel E channel invoiceAmount w)) = transactions w.
Proof.
  intros [b [Hin [Hid Hlive]]].
  destruct (live_block_is_found E channel w b Hin Hid Hlive) as [b' Hfind].
  rewrite _rebalanceChannel_run, Hfind. split; reflexivity.
Qed.

(** [_onConsiderChannelRebalance] ends in [_rebalanceChannel] on the
    channel of that id, or leaves the effects alone. *)
Lemma tick_run (channelId : string) :
  (exists keep w1, _onConsiderChannelRebalance E channelId w = (Returned keep, w1)
                   /\ effects w1 = effects w)
  \/ exists channel invoiceAmount,
       ch_id channel = channelId
       /\ _onConsiderChannelRebalance E channelId w =
            (_rebalanceChannel E channel invoiceAmount ;;; ret true) w.
Proof.
  rewrite _onConsiderChannelRebalance_run.
  destruct (find (fun c => (ch_id c =? channelId)%string) (channels (lightning w)))
    as [channel|] eqn:Hfind; [|left; eexists _, _; split; reflexivity].
  assert (Hid : ch_id channel = channelId).
  { apply find_some in Hfind. apply String.eqb_eq. apply Hfind. }
  cbv zeta.
  destruct (ch_isActive channel && _ && _); [|left; eexists _, _; split; reflexivity].
  right. eexists channel, _. split; [exact Hid|reflexivity].
Qed.

Lemma tick_effects (channelId : string) :
  effects (snd (_onConsiderChannelRebalance E channelId w)) = effects w
  \/ exists channel invoiceAmount,
       ch_id channel = channelId
       /\ effects (snd (_onConsiderChannelRebalance E channelId w)) =
            effects (snd (_rebalanceChannel E channel invoiceAmount w)).
Proof.
  destruct (tick_run channelId) as [[keep [w1 [-> H]]]|[channel [amount [Hid ->]]]];
    [left; exact H|].
  right. exists channel, amount. split; [exact Hid|].
  unfold bind. destruct (_rebalanceChannel E channel amount w) as [[[]|] v]; reflexivity.
Qed.

Lemma blocked_tick_is_silent (channelId : string) :
  blocked channelId ->
  effects (snd (_onConsiderChannelRebalance E channelId w)) = effects w.
Proof.
  intro Hblocked.
  destruct (tick_effects channelId) as [H|[channel [amount [Hid H]]]]; [exact H|].
  rewrite H. apply blocked_channel_is_skipped. rewrite Hid. exact Hblocked.
Qed.

(** The [payInvoice] a tick writes is for the channel it looks at. *)
Lemma tick_writes_for_its_channel (channelId : string) (socket : nat)
    (envelope : Envelope) (m : PayRequest) :
  In (SocketWrite socket envelope) (effects (snd (_onConsiderChannelRebalance E channelId w))) ->
  env_message envelope = PayInvoice m ->
  In (SocketWrite socket envelope) (effects w) \/ msg_channelId m = channelId.
Proof.
  intros Hin Hm.
  destruct (tick_effects channelId) as [H|[channel [amount [Hid H]]]];
    [left; rewrite <- H; exact Hin|].
  rewrite H in Hin. apply _rebalanceChannel_effects in Hin.
  destruct Hin as [Hold|[Hcreate|[socket' [request Hwrite]]]].
  - left. exact Hold.
  - discriminate.
  - right. injection Hwrite as _ ->. simpl in Hm. injection Hm as <-. exact Hid.
Qed.

End Gate.

(** C6: while a block of channel [C] that ends after now is in place, no
    event the program reacts to makes it write a [payInvoice] for [C]; and
    whenever [_rebalanceChannel] adds an effect (an invoice, a
    [payInvoice]), the rate limiter had let the channel through and put the
    block until [now + minTimeBetweenPayments] in place before any effect,
    the block being still there at the end. *)
Theorem cooldown_gates_dispatch :
  forall (E : Env) (w : World),
    (forall (C : string) (event : Event) (socket : nat) (envelope : Envelope)
            (m : PayRequest),
        (exists b, In b (blockedPending (lightning w))
                   /\ blk_id b = C /\ Date_now E < blk_until b) ->
        In (SocketWrite socket envelope) (effects (snd (handle E event w))) ->
        env_message envelope = PayInvoice m ->
        msg_channelId m = C ->
        In (SocketWrite socket envelope) (effects w))
    /\ (forall (channel : Channel) (invoiceAmount : Q),
          let w' := snd (_rebalanceChannel E channel invoiceAmount w) in
          let block :=
            {| blk_id := ch_id channel;
               blk_until := Date_now E
                 + timeToMilliseconds E
                     (settings_minTimeBetweenPayments E (alias (lightning w))
                        (ch_id channel)) |} in
          effects w' <> effects w ->
          exists w1,
            _rateLimitRebalance E channel w = (Returned false, w1)
            /\ effects w1 = effects w
            /\ In block (blockedPending (lightning w1))
            /\ In block (blockedPending (lightning w'))).
Proof.
  intros E w. split.
  - intros C event socket envelope m Hblocked Hin Hm HC.
    assert (Hloud : is_payInvoice (SocketWrite socket envelope) = true)
      by (simpl; rewrite Hm; reflexivity).
    assert (Hquiet : forall h : Js unit,
              respects (grows (fun e => is_payInvoice e = false)) h ->
              In (SocketWrite socket envelope) (effects (snd (h w))) ->
              In (SocketWrite socket envelope) (effects w)).
    { intros h Hh Hin'. destruct (Hh w _ Hin') as [Hold|Hnot]; [exact Hold|congruence]. }
    destruct event as [s p|p raw|p|p|channelId]; simpl in Hin.
    + exact (Hquiet _ (_onOpenConnection_quiet E s p) Hin).
    + exact (Hquiet _ (_onMessage_quiet E p raw) Hin).
    + exact (Hquiet _ (_onCloseConnection_quiet p) Hin).
    + exact Hin.
    + assert (Hin' : In (SocketWrite socket envelope)
                        (effects (snd (_onConsiderChannelRebalance E channelId w)))).
      { unfold bind in Hin.
        destruct (_onConsiderChannelRebalance E channelId w) as [[a|] v]; exact Hin. }
      destruct (tick_writes_for_its_channel E w channelId socket envelope m Hin' Hm)
        as [Hold|Hid]; [exact Hold|].
      rewrite blocked_tick_is_silent in Hin'; [exact Hin'|].
      rewrite <- Hid, HC. exact Hblocked.
  - intros channel invoiceAmount w' block Hnew. subst w'.
    exists (cooled E channel w).
    rewrite _rebalanceChannel_run in *. rewrite _rateLimitRebalance_run.
    destruct (find (fun c => (blk_id c =? ch_id channel)%string)
                   (live_blocks E (lightning w))) as [b|];
      [exfalso; apply Hnew; reflexivity|].
    assert (Hin : In block (blockedPending (lightning (cooled E channel w)))).
    { simpl. apply in_or_app. right. left. reflexivity. }
    repeat split; try exact Hin.
    destruct (lnService_createInvoice E (toFixed0 invoiceAmount)); [|exact Hin].
    cbv zeta.
    destruct (find (fun c => (own_channelId c =? ch_id channel)%string)
                   (channelOwners (tightrope w))) as [owner|]; [|exact Hin].
    destruct (_findConnection (own_remotePeer owner) (tightrope w)); exact Hin.
Qed.

(** S4, afterwards: [C1] is blocked until tomorrow, and the tick on it
    writes no [payInvoice] for it. *)
Lemma cooldown_gates_dispatch_witness :
  let E := Scenario.envA (1 # 2) in
  let w := Scenario.nodeA 100000 900000
             [{| blk_id := "C1"; blk_until := Scenario.now0 + 86400001 |}] in
  (exists b, In b (blockedPending (lightning w))
             /\ blk_id b = "C1" /\ Date_now E < blk_until b)
  /\ forall socket envelope m,
       In (SocketWrite socket envelope) (effects (snd (handle E (consider "C1") w))) ->
       env_message envelope = PayInvoice m ->
       msg_channelId m = "C1" ->
       In (SocketWrite socket envelope) (effects w).
Proof.
  cbv zeta.
  assert (H : exists b,
             In b (blockedPending
                     (lightning (Scenario.nodeA 100000 900000
                        [{| blk_id := "C1"; blk_until := Scenario.now0 + 86400001 |}])))
             /\ blk_id b = "C1"
             /\ Date_now (Scenario.envA (1 # 2)) < blk_until b).
  { exists {| blk_id := "C1"; blk_until := Scenario.now0 + 86400001 |}.
    split; [left; reflexivity|]. split; reflexivity. }
  split; [exact H|].
  intros socket envelope m.
  apply (proj1 (cooldown_gates_dispatch (Scenario.envA (1 # 2))
                  (Scenario.nodeA 100000 900000
                     [{| blk_id := "C1"; blk_until := Scenario.now0 + 86400001 |}]))).
  exact H.
Defined.

(** S1: the channel is free, the tick dispatches, and the block is in
    place in the world in which the invoice is then asked for. *)
Lemma free_channel_is_dispatched :
  let E := Scenario.envA (1 # 2) in
  let w := Scenario.nodeA 100000 900000 [] in
  let w' := snd (_rebalanceChannel E (Scenario.channelA 100000 900000) 400000 w) in
  _rateLimitRebalance E (Scenario.channelA 100000 900000) w =
    (Returned false, cooled E (Scenario.channelA 100000 900000) w)
  /\ blockedPending (lightning (cooled E (Scenario.channelA 100000 900000) w)) =
       [{| blk_id := "C1"; blk_until := Scenario.now0 + 300000 |}]
  /\ effects (cooled E (Scenario.channelA 100000 900000) w) = []
  /\ effects w' =
       [ LnCreateInvoice 400000;
         SocketWrite 1
           (signed E (tightrope w)
              (PayInvoice (rebalance_request (Scenario.channelA 100000 900000)
                             "lnbc1" 400000))) ]
  /\ blockedPending (lightning w') =
       [{| blk_id := "C1"; blk_until := Scenario.now0 + 300000 |}].
Proof. vm_compute. repeat split; reflexivity. Qed.

(** * Sessions *)

Lemma filter_filter {A} (p q : A -> bool) (l : list A) :
  filter p (filter q l) = filter (fun x => q x && p x) l.
Proof.
  induction l as [|x l IH]; simpl; [reflexivity|].
  destruct (q x); simpl; [destruct (p x)|]; rewrite IH; reflexivity.
Qed.

Lemma filter_all {A} (l : list A) : filter (fun _ => true) l = l.
Proof. induction l as [|x l IH]; simpl; [|rewrite IH]; reflexivity. Qed.

Lemma unwatchChannel_run (channelId : string) (w : World) :
  exists lines,
    unwatchChannel channelId w =
      (Returned tt,
       {| tightrope := tightrope w;
          lightning :=
            set_watchList
              (filter (fun c => negb (c =? channelId)%string) (watchList (lightning w)))
              (lightning w);
          transactions := transactions w;
          effects := effects w;
          log := (log w ++ lines)%list |}).
Proof.
  unfold unwatchChannel, bind, get, logging, modify, ret.
  destruct (existsb _ _); simpl.
  - exists [logEvent "stopWatchingChannel"]. reflexivity.
  - exists []. rewrite app_nil_r. reflexivity.
Qed.

(** The [forEach] of [_removeActiveConnection]: the watch list loses the
    channels of the records that name the peer, and only the log changes
    besides. *)
Lemma unwatch_owned_run (remotePeer : string) (owners : list Owner) :
  forall w, exists lines,
    forEach owners
      (fun c => if (own_remotePeer c =? remotePeer)%string
                then unwatchChannel (own_channelId c)
                else ret tt) w =
      (Returned tt,
       {| tightrope := tightrope w;
          lightning :=
            set_watchList
              (filter (fun id => negb (owned_by remotePeer owners id))
                      (watchList (lightning w)))
              (lightning w);
          transactions := transactions w;
          effects := effects w;
          log := (log w ++ lines)%list |}).
Proof.
  induction owners as [|c owners IH]; intro w.
  - exists []. simpl. unfold ret. rewrite app_nil_r, filter_all.
    destruct w as [t [? ? ? ? ? ?] ? ? ?]. reflexivity.
  - assert (Hf : forall l : list string,
              filter (fun id => negb (owned_by remotePeer (c :: owners) id)) l =
              if (own_remotePeer c =? remotePeer)%string
              then filter (fun id => negb (owned_by remotePeer owners id))
                     (filter (fun x => negb (x =? own_channelId c)%string) l)
              else filter (fun id => negb (owned_by remotePeer owners id)) l).
    { intro l. destruct (own_remotePeer c =? remotePeer)%string eqn:Hpeer.
      - rewrite filter_filter. apply filter_ext. intro id.
        unfold owned_by. simpl. rewrite Hpeer. simpl.
        rewrite String.eqb_sym. rewrite negb_orb. reflexivity.
      - apply filter_ext. intro id. unfold owned_by. simpl. rewrite Hpeer. reflexivity. }
    simpl forEach. unfold bind at 1. rewrite Hf.
    destruct (own_remotePeer c =? remotePeer)%string.
    + destruct (unwatchChannel_run (own_channelId c) w) as [l1 ->].
      match goal with |- context [forEach owners ?f ?v] => destruct (IH v) as [l2 ->] end.
      exists (l1 ++ l2)%list. simpl. rewrite app_assoc. reflexivity.
    + unfold ret at 1. destruct (IH w) as [l2 ->]. exists l2. reflexivity.
Qed.

(** [_removeActiveConnection] in one step. *)
Lemma _removeActiveConnection_run (remotePublicKey : string) (w : World) :
  exists lines,
    _removeActiveConnection remotePublicKey w =
      (Returned tt, forgotten remotePublicKey lines w).
Proof.
  unfold _removeActiveConnection. unfold bind at 1. unfold modify at 1.
  unfold bind at 1. unfold get at 1. unfold bind at 1.
  match goal with
  | |- context [forEach ?o ?f ?v] =>
      destruct (unwatch_owned_run remotePublicKey o v) as [lines ->]
  end.
  exists lines. reflexivity.
Qed.

Lemma _onCloseConnection_run (remotePeer : string) (w : World) :
  exists lines,
    _onCloseConnection remotePeer w =
      (Returned tt, with_log (logEvent "peerDisconnected") (forgotten remotePeer lines w)).
Proof.
  destruct (_removeActiveConnection_run remotePeer w) as [lines H].
  exists lines. unfold _onCloseConnection, bind. rewrite H. reflexivity.
Qed.

Lemma _addActiveConnection_run (remotePublicKey : string) (socket : nat) (w : World) :
  exists lines,
    _addActiveConnection remotePublicKey socket w =
      (Returned tt,
       set_tightrope
         (fun t =>
            set_activeConnections
              (activeConnections t
               ++ [{| conn_remotePublicKey := remotePublicKey; conn_socket := socket |}])
              t)
         (forgotten remotePublicKey lines w)).
Proof.
  destruct (_removeActiveConnection_run remotePublicKey w) as [lines H].
  exists lines. unfold _addActiveConnection, bind. rewrite H. reflexivity.
Qed.

Lemma not_owned_after_filter (remotePeer : string) (owners : list Owner) (owner : Owner) :
  In owner (filter (fun o => negb (own_remotePeer o =? remotePeer)%string) owners) ->
  own_remotePeer owner <> remotePeer.
Proof.
  intro H. apply filter_In in H. destruct H as [_ H].
  apply negb_true_iff in H. apply String.eqb_neq in H. exact H.
Qed.

Lemma owned_channel_unwatched (remotePeer : string) (owners : list Owner)
    (watched : list string) (owner : Owner) :
  In owner owners ->
  own_remotePeer owner = remotePeer ->
  ~ In (own_channelId owner)
       (filter (fun id => negb (owned_by remotePeer owners id)) watched).
Proof.
  intros Hin Hpeer H. apply filter_In in H. destruct H as [_ H].
  apply negb_true_iff in H.
  assert (Ht : owned_by remotePeer owners (own_channelId owner) = true).
  { unfold owned_by. apply existsb_exists. exists owner. split; [exact Hin|].
    apply andb_true_iff. split; apply String.eqb_eq; [exact Hpeer | reflexivity]. }
  congruence.
Qed.

Lemma find_connection_after_filter (remotePeer : string) (l : list Connection) :
  find (fun c => (conn_remotePublicKey c =? remotePeer)%string)
       (filter (fun c => negb (conn_remotePublicKey c =? remotePeer)%string) l) = None.
Proof.
  induction l as [|c l IH]; simpl; [reflexivity|].
  destruct (conn_remotePublicKey c =? remotePeer)%string eqn:Hc; simpl.
  - exact IH.
  - rewrite Hc. exact IH.
Qed.

(** Against C7 as stated: the [error] event of B's socket at A, on its
    own.  The listener logs and that is all; B's session, its ownership
    record and the watch on [C1] are all still there. *)
Lemma error_event_tears_nothing_down :
  let w := Scenario.nodeA 100000 900000 [] in
  let w' := snd (socket_on_error "meshB" w) in
  _findConnection "meshB" (tightrope w') = Some 1%nat
  /\ channelOwners (tightrope w') = [Scenario.ownerB]
  /\ watchList (lightning w') = ["C1"].
Proof. vm_compute. repeat split; reflexivity. Qed.

(** C7, as the code has it: after the [close] event of a peer's socket
    the peer has no active session, no ownership record names it, and the
    channel of every record that named it is off the watch list, the other
    watched channels staying on it.  The [error] event has a listener of
    its own, which writes a line to the log and changes nothing else. *)
Theorem close_tears_the_session_down :
  forall (remotePeer : string) (w : World),
    let w' := snd (_onCloseConnection remotePeer w) in
    _findConnection remotePeer (tightrope w') = None
    /\ (forall owner, In owner (channelOwners (tightrope w')) ->
                      own_remotePeer owner <> remotePeer)
    /\ (forall owner, In owner (channelOwners (tightrope w)) ->
                      own_remotePeer owner = remotePeer ->
                      ~ In (own_channelId owner) (watchList (lightning w')))
    /\ (forall channelId, In channelId (watchList (lightning w)) ->
                          owned_by remotePeer (channelOwners (tightrope w)) channelId = false ->
                          In channelId (watchList (lightning w')))
    /\ snd (socket_on_error remotePeer w) = with_log (logError "Socket error") w.
Proof.
  intros remotePeer w w'. subst w'.
  destruct (_onCloseConnection_run remotePeer w) as [lines ->].
  simpl. repeat split.
  - unfold _findConnection. simpl. rewrite find_connection_after_filter. reflexivity.
  - apply not_owned_after_filter.
  - apply owned_channel_unwatched.
  - intros channelId Hin Hfree. apply filter_In. split; [exact Hin|].
    rewrite Hfree. reflexivity.
Qed.

(** S5: B's socket closes at A. *)
Lemma close_tears_the_session_down_witness :
  let w := Scenario.nodeA 100000 900000 [] in
  let w' := snd (_onCloseConnection "meshB" w) in
  In Scenario.ownerB (channelOwners (tightrope w))
  /\ own_remotePeer Scenario.ownerB = "meshB"
  /\ ~ In (own_channelId Scenario.ownerB) (watchList (lightning w')).
Proof.
  cbv zeta.
  split; [left; reflexivity|]. split; [reflexivity|].
  destruct (close_tears_the_session_down "meshB" (Scenario.nodeA 100000 900000 []))
    as [_ [_ [Hunwatched _]]].
  apply Hunwatched; [left|]; reflexivity.
Defined.

(** C10: registering a session for a mesh key, whether or not the key has
    one already, leaves the key with the new socket only, leaves no
    ownership record that names the key, and takes the channel of every
    record that named it off the watch list; [_onOpenConnection] then only
    writes its [hello]. *)
Theorem reconnect_forgets_the_prior_session :
  forall (E : Env) (remotePublicKey : string) (socket : nat) (w : World),
    let w' := snd (_addActiveConnection remotePublicKey socket w) in
    let opened := snd (_onOpenConnection E socket remotePublicKey w) in
    activeConnections (tightrope w') =
      (filter (fun c => negb (conn_remotePublicKey c =? remotePublicKey)%string)
              (activeConnections (tightrope w))
       ++ [{| conn_remotePublicKey := remotePublicKey; conn_socket := socket |}])%list
    /\ _findConnection remotePublicKey (tightrope w') = Some socket
    /\ (forall owner, In owner (channelOwners (tightrope w')) ->
                      own_remotePeer owner <> remotePublicKey)
    /\ (forall owner, In owner (channelOwners (tightrope w)) ->
                      own_remotePeer owner = remotePublicKey ->
                      ~ In (own_channelId owner) (watchList (lightning w')))
    /\ tightrope opened = tightrope w'
    /\ lightning opened = lightning w'.
Proof.
  intros E remotePublicKey socket w w' opened.
  assert (Hfind : forall l,
            find (fun c => (conn_remotePublicKey c =? remotePublicKey)%string)
                 (filter (fun c => negb (conn_remotePublicKey c =? remotePublicKey)%string) l
                  ++ [{| conn_remotePublicKey := remotePublicKey; conn_socket := socket |}])
            = Some {| conn_remotePublicKey := remotePublicKey; conn_socket := socket |}).
  { intro l. induction l as [|c l IH]; simpl.
    - rewrite String.eqb_refl. reflexivity.
    - destruct (conn_remotePublicKey c =? remotePublicKey)%string eqn:Hc; simpl.
      + exact IH.
      + rewrite Hc. exact IH. }
  assert (Hrun : exists lines e,
            _onOpenConnection E socket remotePublicKey w =
              (Returned tt,
               with_effect e
                 (set_tightrope
                    (fun t =>
                       set_activeConnections
                         (activeConnections t
                          ++ [{| conn_remotePublicKey := remotePublicKey;
                                 conn_socket := socket |}]) t)
                    (forgotten remotePublicKey lines
                       (with_log (logEvent "peerConnected") w))))).
  { destruct (_addActiveConnection_run remotePublicKey socket
                (with_log (logEvent "peerConnected") w)) as [l2 H2].
    exists l2. unfold _onOpenConnection.
    rewrite (bind_returned _ _ w (with_log (logEvent "peerConnected") w) tt eq_refl).
    rewrite (bind_returned _ _ _ _ tt H2).
    unfold bind at 1. unfold get at 1. unfold _sendMessage.
    unfold bind at 1. unfold get at 1.
    unfold _findConnection.
    cbn [activeConnections tightrope set_tightrope set_activeConnections forgotten].
    rewrite Hfind. eexists. reflexivity. }
  assert (Hopen : tightrope opened = tightrope w' /\ lightning opened = lightning w').
  { subst w' opened. destruct Hrun as [l2 [e ->]].
    destruct (_addActiveConnection_run remotePublicKey socket w) as [l1 ->].
    split; reflexivity. }
  destruct Hopen as [Ht Hl]. rewrite Ht, Hl. clear Ht Hl opened. subst w'.
  destruct (_addActiveConnection_run remotePublicKey socket w) as [lines ->].
  simpl. unfold _findConnection. simpl. rewrite Hfind.
  repeat split.
  - apply not_owned_after_filter.
  - apply owned_channel_unwatched.
Qed.

(** B reconnects to A on a new socket. *)
Lemma reconnect_forgets_the_prior_session_witness :
  let w := Scenario.nodeA 100000 900000 [] in
  let w' := snd (_addActiveConnection "meshB" 2%nat w) in
  In Scenario.ownerB (channelOwners (tightrope w))
  /\ own_remotePeer Scenario.ownerB = "meshB"
  /\ _findConnection "meshB" (tightrope w') = Some 2%nat
  /\ ~ In (own_channelId Scenario.ownerB) (watchList (lightning w')).
Proof.
  cbv zeta.
  split; [left; reflexivity|]. split; [reflexivity|].
  destruct (reconnect_forgets_the_prior_session (Scenario.envA (1 # 2)) "meshB" 2%nat
              (Scenario.nodeA 100000 900000 []))
    as [_ [Hfound [_ [Hunwatched _]]]].
  split; [exact Hfound|].
  apply Hunwatched; [left|]; reflexivity.
Defined.

(** * The responder *)

Section Responder.

Variable E : Env.

Lemma _refreshChannelList_run (w : World) :
  exists lines,
    _refreshChannelList E w =
      (Returned (refreshedChannels E (lightning w)), refreshed E lines w).
Proof.
  unfold _refreshChannelList, refreshed, refreshedChannels, try_catch, await, perform,
    logging, bind, modify, get, ret, throw.
  simpl. destruct (lnd (lightning w)); simpl.
  - destruct (lnService_getChannels E); simpl.
    + exists []. rewrite app_nil_r. reflexivity.
    + eexists. reflexivity.
  - exists []. rewrite !app_nil_r. reflexivity.
Qed.

Lemma findChannelFromId_run (channelId : string) (w : World) :
  exists lines,
    findChannelFromId E channelId w =
      (Returned (find (fun c => (ch_id c =? channelId)%string)
                      (refreshedChannels E (lightning w))),
       refreshed E lines w).
Proof.
  destruct (_refreshChannelList_run w) as [lines H]. exists lines.
  unfold findChannelFromId. rewrite (bind_returned _ _ _ _ _ H). reflexivity.
Qed.

Variables (msg : PayRequest) (details : Decoded).

Hypothesis decodes : lnService_decodePaymentRequest E (msg_invoice msg) = Some details.

(** The four refusals of [_shouldPayInvoice]: the verdict is
    [invalid_request], the invoice was decoded and at most the channels
    were listed. *)
Lemma _shouldPayInvoice_invalid (w : World) :
  same_number (toNumber (dec_tokens details)) (toNumber (msg_tokens msg)) = false
  \/ dec_destination details <> msg_paidTo msg
  \/ find (fun c => (ch_id c =? msg_channelId msg)%string)
          (refreshedChannels E (lightning w)) = None
  \/ (exists channelInfo,
        find (fun c => (ch_id c =? msg_channelId msg)%string)
             (refreshedChannels E (lightning w)) = Some channelInfo
        /\ ch_remotePublicKey channelInfo <> msg_paidTo msg) ->
  exists w1 calls,
    _shouldPayInvoice E msg w = (Returned (SP_object invalid_request), w1)
    /\ tightrope w1 = tightrope w
    /\ effects w1 = (effects w ++ calls)%list
    /\ (calls = [LnDecodePaymentRequest (msg_invoice msg)]
        \/ calls = [LnDecodePaymentRequest (msg_invoice msg); LnGetChannels]).
Proof.
  intro Hbad. unfold _shouldPayInvoice. cbv zeta.
  set (w0 := with_effect (LnDecodePaymentRequest (msg_invoice msg)) w).
  assert (Hdec : await (LnDecodePaymentRequest (msg_invoice msg))
                       (lnService_decodePaymentRequest E (msg_invoice msg)) w
                 = (Returned details, w0))
    by (apply await_resolved; exact decodes).
  destruct (same_number (toNumber (dec_tokens details)) (toNumber (msg_tokens msg)))
    eqn:Htokens.
  2:{ exists (with_log (logError "Rejected invoice as amount differs") w0), 
        [LnDecodePaymentRequest (msg_invoice msg)].
      split; [|auto].
      apply try_catch_returned. rewrite (bind_returned _ _ _ _ _ Hdec).
      rewrite Htokens. reflexivity. }
  destruct (dec_destination details =? msg_paidTo msg)%string eqn:Hdest.
  2:{ exists (with_log (logError "Rejected invoice as payment destination does not match") w0),
        [LnDecodePaymentRequest (msg_invoice msg)].
      split; [|auto].
      apply try_catch_returned. rewrite (bind_returned _ _ _ _ _ Hdec).
      rewrite Htokens, Hdest. reflexivity. }
  apply String.eqb_eq in Hdest.
  destruct Hbad as [Hbad|[Hbad|Hbad]]; [congruence|contradiction|].
  destruct (findChannelFromId_run (msg_channelId msg) w0) as [lines Hfind].
  change (lightning w0) with (lightning w) in Hfind.
  assert (Hcalls : exists calls,
            effects (refreshed E lines w0) = (effects w ++ calls)%list
            /\ (calls = [LnDecodePaymentRequest (msg_invoice msg)]
                \/ calls = [LnDecodePaymentRequest (msg_invoice msg); LnGetChannels])).
  { unfold refreshed, w0. simpl. destruct (lnd (lightning w)).
    - eexists. rewrite <- app_assoc. split; [reflexivity|]. right. reflexivity.
    - eexists. rewrite app_nil_r. split; [reflexivity|]. left. reflexivity. }
  destruct Hcalls as [calls [Heff Hcalls]].
  apply String.eqb_eq in Hdest.
  destruct Hbad as [Hnone|[channelInfo [Hsome Hremote]]].
  - exists (with_log (logError "Rejected invoice as channel was not found locally")
              (refreshed E lines w0)), calls.
    split; [|auto].
    apply try_catch_returned. rewrite (bind_returned _ _ _ _ _ Hdec).
    rewrite Htokens, Hdest. cbn [negb].
    rewrite (bind_returned _ _ _ _ _ Hfind). rewrite Hnone. reflexivity.
  - exists (with_log
              (logError "Rejected invoice as request remote does not match channel remote")
              (refreshed E lines w0)), calls.
    split; [|auto].
    apply try_catch_returned. rewrite (bind_returned _ _ _ _ _ Hdec).
    rewrite Htokens, Hdest. cbn [negb].
    rewrite (bind_returned _ _ _ _ _ Hfind). rewrite Hsome.
    apply String.eqb_neq in Hremote. rewrite Hremote. reflexivity.
Qed.

End Responder.

(** What [_onPayInvoice] writes once [payInvoice] has returned. *)
Lemma _onPayInvoice_reply (E : Env) (remotePeer : string) (msg : PayRequest)
    (w w1 : World) (result : PayResult) (socket : nat) :
  payInvoice E msg (with_log (logEvent "onPayInvoice") w) = (Returned result, w1) ->
  tightrope w1 = tightrope w ->
  _findConnection remotePeer (tightrope w) = Some socket ->
  _onPayInvoice E remotePeer msg w =
    (Returned tt,
     with_effect (SocketWrite socket (signed E (tightrope w) (PaymentResult msg result))) w1).
Proof.
  intros Hpay Ht Hconn. unfold _onPayInvoice.
  rewrite (bind_returned _ _ w (with_log (logEvent "onPayInvoice") w) tt eq_refl).
  rewrite (bind_returned _ _ _ _ _ Hpay).
  unfold _sendMessage. unfold bind at 1. unfold get at 1.
  rewrite Ht, Hconn. reflexivity.
Qed.

(** What [_onPayInvoice] adds to the effects once [payInvoice] has
    returned: the reply on the socket of the sender's session, when the
    sender has one. *)
Lemma _onPayInvoice_effects (E : Env) (remotePeer : string) (msg : PayRequest)
    (w w1 : World) (result : PayResult) :
  payInvoice E msg (with_log (logEvent "onPayInvoice") w) = (Returned result, w1) ->
  tightrope w1 = tightrope w ->
  effects (snd (_onPayInvoice E remotePeer msg w)) =
    (effects w1
     ++ match _findConnection remotePeer (tightrope w) with
        | Some socket =>
            [SocketWrite socket (signed E (tightrope w) (PaymentResult msg result))]
        | None => []
        end)%list.
Proof.
  intros Hpay Ht. unfold _onPayInvoice.
  rewrite (bind_returned _ _ w (with_log (logEvent "onPayInvoice") w) tt eq_refl).
  rewrite (bind_returned _ _ _ _ _ Hpay).
  unfold _sendMessage. unfold bind at 1. unfold get at 1.
  rewrite Ht. destruct (_findConnection remotePeer (tightrope w)) as [socket|].
  - reflexivity.
  - simpl. rewrite app_nil_r. reflexivity.
Qed.

(** Against C8 as stated, at two requests that reach B.  The first asks
    for 9007199254740993 tokens with an invoice that decodes to
    9007199254740992: the two are the same double, every other check
    passes, and B pays and answers [confirmed = true].  The second is the
    request of S6, whose invoice decodes to another destination, arriving
    when B holds no session for [meshA]: B decodes, and writes no reply. *)
Lemma invalid_request_is_not_always_refused :
  let request :=
    {| msg_invoice := "lnbc1"; msg_tokens := 9007199254740993; msg_channelId := "C1";
       msg_paidTo := "lnA"; msg_paidBy := "lnB" |} in
  let decoded := {| dec_tokens := 9007199254740992; dec_destination := "lnA" |} in
  let E := Scenario.allowing 10000000000000000
             (Scenario.envB (Some decoded) (Some (Some Scenario.paid))) in
  let E' := Scenario.envB (Some (Scenario.decoded "lnX")) (Some (Some Scenario.paid)) in
  let unknown := set_tightrope (set_activeConnections []) (Scenario.nodeB []) in
  ((dec_tokens decoded =? msg_tokens request) = false
   /\ effects (snd (_onPayInvoice E "meshA" request (Scenario.nodeB []))) =
        [ LnDecodePaymentRequest "lnbc1"; LnGetChannels; LnPay "lnbc1" "C1";
          SocketWrite 7
            {| env_message :=
                 PaymentResult request
                   {| res_allow := Some true; res_reason := None; res_retryAt := None;
                      res_paymentId := Some "p1"; res_confirmed := true;
                      res_confirmedAt := Some "2023-11-14" |};
               env_timestamp := Scenario.now0;
               env_signature := "s:1700000000000:meshB" |} ])
  /\ ((dec_destination (Scenario.decoded "lnX") =? msg_paidTo Scenario.request)%string
        = false
      /\ effects (snd (_onPayInvoice E' "meshA" Scenario.request unknown)) =
           [ LnDecodePaymentRequest "lnbc1" ]).
Proof. vm_compute. repeat split; reflexivity. Qed.

(** C8, as the code has it: when the invoice decodes, and its amount and
    [msg.tokens] are not the same number, or its destination is not
    [msg.paidTo], or [msg.channelId] is not among the channels just
    listed, or that channel's remote key is not [msg.paidTo], then
    [payInvoice] returns [confirmed = false] with the reason
    ["invalid request"]; the responder decodes, at most lists the
    channels, makes no call to [pay], and writes that result as a
    [paymentResult] to the socket of the sender's session, or writes
    nothing when the sender has no session. *)
Theorem invalid_request_is_refused :
  forall (E : Env) (w : World) (remotePeer : string) (msg : PayRequest)
         (details : Decoded),
    lnService_decodePaymentRequest E (msg_invoice msg) = Some details ->
    same_number (toNumber (dec_tokens details)) (toNumber (msg_tokens msg)) = false
    \/ dec_destination details <> msg_paidTo msg
    \/ find (fun c => (ch_id c =? msg_channelId msg)%string)
            (refreshedChannels E (lightning w)) = None
    \/ (exists channelInfo,
          find (fun c => (ch_id c =? msg_channelId msg)%string)
               (refreshedChannels E (lightning w)) = Some channelInfo
          /\ ch_remotePublicKey channelInfo <> msg_paidTo msg) ->
    let result :=
      {| res_allow := Some false;
         res_reason := Some "invalid request";
         res_retryAt := None;
         res_paymentId := None;
         res_confirmed := false;
         res_confirmedAt := None |} in
    fst (payInvoice E msg w) = Returned result
    /\ exists calls,
         effects (snd (_onPayInvoice E remotePeer msg w)) =
           (effects w ++ calls
            ++ match _findConnection remotePeer (tightrope w) with
               | Some socket =>
                   [SocketWrite socket
                      (signed E (tightrope w) (PaymentResult msg result))]
               | None => []
               end)%list
         /\ existsb is_pay calls = false
         /\ (calls = [LnDecodePaymentRequest (msg_invoice msg)]
             \/ calls = [LnDecodePaymentRequest (msg_invoice msg); LnGetChannels]).
Proof.
  intros E w remotePeer msg details Hdec Hbad result.
  assert (Hrun : forall v,
            lightning v = lightning w ->
            exists v1 calls,
              payInvoice E msg v = (Returned refused, v1)
              /\ tightrope v1 = tightrope v
              /\ effects v1 = (effects v ++ calls)%list
              /\ (calls = [LnDecodePaymentRequest (msg_invoice msg)]
                  \/ calls = [LnDecodePaymentRequest (msg_invoice msg); LnGetChannels])).
  { intros v Hv. rewrite <- Hv in Hbad.
    destruct (_shouldPayInvoice_invalid E msg details Hdec v Hbad)
      as [v1 [calls [Hsp [Ht [Heff Hcalls]]]]].
    exists v1, calls. split; [|auto].
    unfold payInvoice.
    erewrite bind_returned;
      [|apply try_catch_returned; rewrite (bind_returned _ _ _ _ _ Hsp); reflexivity].
    reflexivity. }
  split.
  - destruct (Hrun w eq_refl) as [v1 [calls [Hpay _]]]. rewrite Hpay. reflexivity.
  - destruct (Hrun (with_log (logEvent "onPayInvoice") w) eq_refl)
      as [w1 [calls [Hpay [Ht [Heff Hcalls]]]]].
    exists calls.
    rewrite (_onPayInvoice_effects E remotePeer msg w w1 refused Hpay Ht).
    rewrite Heff. simpl. rewrite <- app_assoc.
    split; [reflexivity|]. split; [|exact Hcalls].
    destruct Hcalls as [-> | ->]; reflexivity.
Qed.

(** S6: the invoice A sent decodes to the destination [lnX]. *)
Lemma invalid_request_is_refused_witness :
  let E := Scenario.envB (Some (Scenario.decoded "lnX")) (Some (Some Scenario.paid)) in
  let w := Scenario.nodeB [] in
  lnService_decodePaymentRequest E "lnbc1" = Some (Scenario.decoded "lnX")
  /\ "lnX" <> "lnA"
  /\ fst (payInvoice E Scenario.request w) = Returned refused
  /\ exists calls,
       effects (snd (_onPayInvoice E "meshA" Scenario.request w)) =
         (effects w ++ calls
          ++ [SocketWrite 7 (signed E (tightrope w)
                               (PaymentResult Scenario.request refused))])%list
       /\ existsb is_pay calls = false
       /\ (calls = [LnDecodePaymentRequest "lnbc1"]
           \/ calls = [LnDecodePaymentRequest "lnbc1"; LnGetChannels]).
Proof.
  cbv zeta.
  split; [reflexivity|]. split; [discriminate|].
  apply (invalid_request_is_refused
           (Scenario.envB (Some (Scenario.decoded "lnX")) (Some (Some Scenario.paid)))
           (Scenario.nodeB []) "meshA" Scenario.request (Scenario.decoded "lnX")).
  - reflexivity.
  - right. left. discriminate.
Defined.

(** * Exceptions at the responder *)

(** When [pay] rejects, [payInvoice] returns the result of its last
    lines: [confirmed = false], reason ["payment failed"]. *)
Lemma pay_exception_is_payment_failed (E : Env) (msg : PayRequest) (w w1 : World)
    (shouldPay : ShouldPay) :
  _shouldPayInvoice E msg w = (Returned shouldPay, w1) ->
  allows shouldPay = true ->
  lnService_pay E (msg_invoice msg) (msg_channelId msg) = None ->
  payInvoice E msg w =
    (Returned payment_failed,
     with_log (logError "Failed to pay invoice")
       (with_effect (LnPay (msg_invoice msg) (msg_channelId msg)) w1)).
Proof.
  intros Hsp Hallow Hpay. unfold payInvoice.
  erewrite bind_returned.
  2:{ eapply eq_trans.
      - apply try_catch_thrown. rewrite (bind_returned _ _ _ _ _ Hsp).
        rewrite Hallow. cbn [negb]. apply bind_thrown. rewrite Hpay.
        apply await_rejected.
      - reflexivity. }
  reflexivity.
Qed.

(** When [decodePaymentRequest] rejects, [_shouldPayInvoice] catches and
    returns the bare [false], of which [payInvoice] makes a result with
    [confirmed = false] and no reason at all. *)
Lemma decode_exception_is_unexplained (E : Env) (msg : PayRequest) (w : World) :
  lnService_decodePaymentRequest E (msg_invoice msg) = None ->
  payInvoice E msg w =
    (Returned unexplained,
     with_log (logError "Failed to determine if an invoice should be paid")
       (with_effect (LnDecodePaymentRequest (msg_invoice msg)) w)).
Proof.
  intro Hdec. unfold payInvoice.
  erewrite bind_returned.
  2:{ apply try_catch_returned. erewrite bind_returned.
      2:{ unfold _shouldPayInvoice. cbv zeta.
          eapply eq_trans.
          - apply try_catch_thrown.
            apply bind_thrown. rewrite Hdec. apply await_rejected.
          - reflexivity. }
      reflexivity. }
  reflexivity.
Qed.

(** C9, where the code departs from it: B cannot decode the invoice of
    A's request.  It still answers, with [confirmed = false], but the
    result carries no reason; ["payment failed"] is not in it. *)
Theorem decode_exception_reply_has_no_reason :
  let E := Scenario.envB None (Some (Some Scenario.paid)) in
  effects (snd (_onPayInvoice E "meshA" Scenario.request (Scenario.nodeB []))) =
    [ LnDecodePaymentRequest "lnbc1";
      SocketWrite 7
        {| env_message :=
             PaymentResult Scenario.request
               {| res_allow := None; res_reason := None; res_retryAt := None;
                  res_paymentId := None; res_confirmed := false;
                  res_confirmedAt := None |};
           env_timestamp := Scenario.now0;
           env_signature := "s:1700000000000:meshB" |} ].
Proof. vm_compute. reflexivity. Qed.

(** The other half of C9, which the code keeps: [pay] rejects at B, and
    the answer is [confirmed = false] with the reason ["payment failed"]. *)
Lemma pay_exception_reply_is_payment_failed :
  let E := Scenario.envB (Some (Scenario.decoded "lnA")) None in
  effects (snd (_onPayInvoice E "meshA" Scenario.request (Scenario.nodeB []))) =
    [ LnDecodePaymentRequest "lnbc1"; LnGetChannels; LnPay "lnbc1" "C1";
      SocketWrite 7
        {| env_message := PaymentResult Scenario.request payment_failed;
           env_timestamp := Scenario.now0;
           env_signature := "s:1700000000000:meshB" |} ].
Proof. vm_compute. reflexivity. Qed.

(** * Shapes the state keeps, event by event *)

#[global] Instance holds_after_PreOrder (P : World -> Prop) : PreOrder (holds_after P).
Proof.
  split.
  - intros w H. exact H.
  - intros w1 w2 w3 H12 H23 H. apply H23, H12, H.
Qed.

(** A frame proof whose leaves are closed by [leaf_tac]. *)
Ltac walk leaf_tac :=
  repeat match goal with
  | |- respects _ (bind _ _) => apply respects_bind; [ exact _ | | intro ]
  | |- respects _ (try_catch _ _) => apply respects_try_catch; [ exact _ | | ]
  | |- respects _ (ret _) => apply respects_ret; exact _
  | |- respects _ throw => apply respects_throw; exact _
  | |- respects _ get => apply respects_get; exact _
  | |- respects _ (forEach _ _) => apply respects_forEach; [ exact _ | intro ]
  | |- respects _ (modify _) => apply respects_modify; leaf_tac
  | |- respects _ (logging _) => apply respects_modify; leaf_tac
  | |- respects _ (perform _) => apply respects_modify; leaf_tac
  | |- respects _ (transactions_add _ _) => apply respects_modify; leaf_tac
  | |- respects _ (await _ _) => unfold await
  | |- respects _ (if ?b then _ else _) => destruct b
  | |- respects _ (match ?x with _ => _ end) => destruct x
  | |- respects _ (let _ := _ in _) => cbv zeta
  end.

(** The leaf of a step that does not touch what [P] speaks of. *)
Ltac untouched := let w := fresh "w" in let H := fresh "H" in intros w H; exact H.

Section Lists.

Context {A : Type} (key : A -> string).

Lemma NoDup_map_filter (p : A -> bool) (l : list A) :
  NoDup (map key l) -> NoDup (map key (filter p l)).
Proof.
  induction l as [|x l IH]; simpl; intro H; [exact H|].
  inversion H as [|? ? Hx Hl]; subst.
  destruct (p x); simpl; [|auto].
  constructor; [|auto].
  intro Hin. apply Hx. apply in_map_iff in Hin. destruct Hin as [y [Hy Hin]].
  apply filter_In in Hin. apply in_map_iff. exists y. tauto.
Qed.

Lemma NoDup_map_snoc (l : list A) (y : A) :
  NoDup (map key l) -> ~ In (key y) (map key l) -> NoDup (map key (l ++ [y])).
Proof.
  intros Hl Hy. rewrite map_app. simpl.
  apply NoDup_app; [exact Hl | repeat constructor; intros [] |].
  intros k Hk [<-|[]]. exact (Hy Hk).
Qed.

Lemma key_gone_after_filter (k : string) (l : list A) :
  ~ In k (map key (filter (fun x => negb (key x =? k)%string) l)).
Proof.
  intro Hin. apply in_map_iff in Hin. destruct Hin as [y [Hy Hin]].
  apply filter_In in Hin. destruct Hin as [_ Hne].
  apply negb_true_iff, String.eqb_neq in Hne. contradiction.
Qed.

(** Replace: drop the entries of key [k], then push one of that key. *)
Lemma NoDup_map_replace (k : string) (l : list A) (y : A) :
  key y = k ->
  NoDup (map key l) ->
  NoDup (map key (filter (fun x => negb (key x =? k)%string) l ++ [y])).
Proof.
  intros Hy Hl. apply NoDup_map_snoc.
  - apply NoDup_map_filter. exact Hl.
  - rewrite Hy. apply key_gone_after_filter.
Qed.

Lemma key_absent_when_not_found (k : string) (l : list A) :
  find (fun x => (key x =? k)%string) l = None -> ~ In k (map key l).
Proof.
  intros Hfind Hin. apply in_map_iff in Hin. destruct Hin as [y [Hy Hin]].
  pose proof (find_none _ _ Hfind y Hin) as Hne. simpl in Hne.
  apply String.eqb_neq in Hne. contradiction.
Qed.

End Lists.

(** The program's functions, opened down to the steps of the monad. *)
Ltac open_program :=
  unfold handle, _onMessage, _onOpenConnection, _onCloseConnection, socket_on_error,
    _onConsiderChannelRebalance, _onHello, _onPayInvoice, _onPaymentResult,
    _rebalanceChannel, _onRequestRebalance, payInvoice, _shouldPayInvoice,
    findChannelFromId, findChannelsFromPubKey, _refreshChannelList, _denyPaymentReason,
    transactions_filter, _sendMessage.

Section Shapes.

Variable E : Env.

(** *** Sessions *)

Lemma _removeActiveConnection_unique_sessions remotePublicKey :
  respects (holds_after unique_sessions) (_removeActiveConnection remotePublicKey).
Proof.
  intros w H. destruct (_removeActiveConnection_run remotePublicKey w) as [lines ->].
  apply (NoDup_map_filter conn_remotePublicKey). exact H.
Qed.

Lemma _addActiveConnection_unique_sessions remotePublicKey socket :
  respects (holds_after unique_sessions) (_addActiveConnection remotePublicKey socket).
Proof.
  intros w H. destruct (_addActiveConnection_run remotePublicKey socket w) as [lines ->].
  apply (NoDup_map_replace conn_remotePublicKey); [reflexivity | exact H].
Qed.

Lemma unwatchChannel_untouched (P : World -> Prop) channelId :
  (forall w l, P w -> P (set_lightning (set_watchList l) w)) ->
  (forall w e, P w -> P (with_log e w)) ->
  respects (holds_after P) (unwatchChannel channelId).
Proof.
  intros Hwatch Hlog. unfold unwatchChannel.
  walk ltac:(first [ untouched
                   | intros ? ?; apply Hlog; assumption
                   | intros ? ?; apply (Hwatch _ _); assumption ]).
Qed.

Lemma watchChannel_untouched (P : World -> Prop) channelId :
  (forall w l, P w -> P (set_lightning (set_watchList l) w)) ->
  (forall w e, P w -> P (with_log e w)) ->
  respects (holds_after P) (watchChannel channelId).
Proof.
  intros Hwatch Hlog. unfold watchChannel.
  walk ltac:(first [ untouched
                   | intros ? ?; apply Hlog; assumption
                   | intros ? ?; apply (Hwatch _ _); assumption ]).
  apply unwatchChannel_untouched; assumption.
Qed.

(** The rate limiter and the handling of a result touch the blocks only. *)
Lemma _rateLimitRebalance_untouched (P : World -> Prop) channel :
  (forall w l, P w -> P (set_lightning (set_blockedPending l) w)) ->
  respects (holds_after P) (_rateLimitRebalance E channel).
Proof.
  intros Hblocks w H. rewrite _rateLimitRebalance_run.
  destruct (find _ _); apply Hblocks; exact H.
Qed.

Lemma confirmPayment_untouched (P : World -> Prop) channelId confirmed retryAt :
  (forall w l, P w -> P (set_lightning (set_blockedPending l) w)) ->
  respects (holds_after P) (confirmPayment channelId confirmed retryAt).
Proof.
  intros Hblocks. unfold confirmPayment.
  walk ltac:(first [ untouched | intros ? ?; apply (Hblocks _ _); assumption ]).
Qed.

Lemma _removeActiveConnection_untouched (P : World -> Prop) remotePublicKey :
  (forall w l, P w -> P (set_lightning (set_watchList l) w)) ->
  (forall w e, P w -> P (with_log e w)) ->
  (forall w f, P w -> P (set_tightrope f w)) ->
  respects (holds_after P) (_removeActiveConnection remotePublicKey).
Proof.
  intros Hwatch Hlog Htight. unfold _removeActiveConnection.
  walk ltac:(first [ untouched | intros ? ?; apply (Htight _ _); assumption ]).
  apply unwatchChannel_untouched; assumption.
Qed.

(** X1: whatever the event, a table of sessions with at most one session
    for a mesh key has at most one session for a key afterwards. *)
Theorem sessions_stay_unique :
  forall (event : Event) (w : World),
    unique_sessions w -> unique_sessions (snd (handle E event w)).
Proof.
  intros event. change (respects (holds_after unique_sessions) (handle E event)).
  destruct event as [s p|p raw|p|p|channelId]; open_program;
    walk untouched;
    first [ apply _addActiveConnection_unique_sessions
          | apply _removeActiveConnection_unique_sessions
          | apply watchChannel_untouched; intros; assumption
          | apply _rateLimitRebalance_untouched; intros; assumption
          | apply confirmPayment_untouched; intros; assumption ].
Qed.

(** *** Ownership records *)

Lemma _removeActiveConnection_unique_owners remotePublicKey :
  respects (holds_after unique_owners) (_removeActiveConnection remotePublicKey).
Proof.
  intros w H. destruct (_removeActiveConnection_run remotePublicKey w) as [lines ->].
  apply (NoDup_map_filter own_channelId). exact H.
Qed.

(** X2: whatever the event, a list of ownership records with at most one
    record for a channel has at most one record for a channel afterwards:
    a greeting replaces the record of each shared channel, a teardown only
    removes records. *)
Theorem owners_stay_unique :
  forall (event : Event) (w : World),
    unique_owners w -> unique_owners (snd (handle E event w)).
Proof.
  intros event. change (respects (holds_after unique_owners) (handle E event)).
  destruct event as [s p|p raw|p|p|channelId]; open_program; unfold _addActiveConnection;
    walk ltac:(first [ untouched
                     | intros ? ?; apply (NoDup_map_replace own_channelId);
                       [reflexivity | assumption] ]);
    first [ apply _removeActiveConnection_unique_owners
          | apply watchChannel_untouched; intros; assumption
          | apply _rateLimitRebalance_untouched; intros; assumption
          | apply confirmPayment_untouched; intros; assumption ].
Qed.

(** *** The watch list *)

Lemma NoDup_replace (k : string) (l : list string) :
  NoDup l -> NoDup (filter (fun c => negb (c =? k)%string) l ++ [k]).
Proof.
  intro H. rewrite <- (map_id (filter _ l ++ [k])).
  apply (NoDup_map_replace (fun x : string => x)); [reflexivity|].
  rewrite map_id. exact H.
Qed.

Lemma watchChannel_run (channelId : string) (w : World) :
  exists lines,
    watchChannel channelId w =
      (Returned tt,
       {| tightrope := tightrope w;
          lightning :=
            set_watchList
              (filter (fun c => negb (c =? channelId)%string) (watchList (lightning w))
               ++ [channelId])
              (lightning w);
          transactions := transactions w;
          effects := effects w;
          log := (log w ++ lines)%list |}).
Proof.
  destruct (unwatchChannel_run channelId w) as [lines H].
  exists (lines ++ [logEvent "startWatchingChannel"])%list.
  unfold watchChannel. rewrite (bind_returned _ _ _ _ _ H).
  unfold bind, modify, logging, with_log. simpl. rewrite app_assoc. reflexivity.
Qed.

Lemma watchChannel_unique_watches channelId :
  respects (holds_after unique_watches) (watchChannel channelId).
Proof.
  intros w H. destruct (watchChannel_run channelId w) as [lines ->].
  apply NoDup_replace. exact H.
Qed.

Lemma _removeActiveConnection_unique_watches remotePublicKey :
  respects (holds_after unique_watches) (_removeActiveConnection remotePublicKey).
Proof.
  intros w H. destruct (_removeActiveConnection_run remotePublicKey w) as [lines ->].
  apply NoDup_filter. exact H.
Qed.

(** X3: whatever the event, a watch list without a channel twice is
    without a channel twice afterwards: [watchChannel] takes the channel
    off the list before it pushes it. *)
Theorem watch_list_stays_duplicate_free :
  forall (event : Event) (w : World),
    unique_watches w -> unique_watches (snd (handle E event w)).
Proof.
  intros event. change (respects (holds_after unique_watches) (handle E event)).
  destruct event as [s p|p raw|p|p|channelId]; open_program; unfold _addActiveConnection;
    walk untouched;
    first [ apply _removeActiveConnection_unique_watches
          | apply watchChannel_unique_watches
          | apply _rateLimitRebalance_untouched; intros; assumption
          | apply confirmPayment_untouched; intros; assumption ].
Qed.

(** *** Blocks *)

Lemma _rateLimitRebalance_unique_blocks channel :
  respects (holds_after unique_blocks) (_rateLimitRebalance E channel).
Proof.
  intros w H. rewrite _rateLimitRebalance_run.
  assert (Hlive : NoDup (map blk_id (live_blocks E (lightning w))))
    by (apply (NoDup_map_filter blk_id); exact H).
  destruct (find _ _) eqn:Hfind; [exact Hlive|].
  apply (NoDup_map_snoc blk_id); [exact Hlive|].
  apply (key_absent_when_not_found blk_id). exact Hfind.
Qed.

Lemma confirmPayment_unique_blocks channelId confirmed retryAt :
  respects (holds_after unique_blocks) (confirmPayment channelId confirmed retryAt).
Proof.
  intros w H.
  assert (Hfilter : NoDup (map blk_id
            (filter (fun c => negb (blk_id c =? channelId)%string)
                    (blockedPending (lightning w)))))
    by (apply (NoDup_map_filter blk_id); exact H).
  destruct confirmed; [exact Hfilter|].
  destruct retryAt as [r|]; [|exact Hfilter].
  unfold confirmPayment, bind, modify. simpl.
  destruct (r =? 0); simpl; [exact Hfilter|].
  apply (NoDup_map_replace blk_id); [reflexivity | exact H].
Qed.

(** X4: whatever the event, a list of blocks with at most one block for a
    channel has at most one block for a channel afterwards: the rate
    limiter pushes a block only when it found none that is live, and a
    result replaces the block of its channel. *)
Theorem blocks_stay_unique :
  forall (event : Event) (w : World),
    unique_blocks w -> unique_blocks (snd (handle E event w)).
Proof.
  intros event. change (respects (holds_after unique_blocks) (handle E event)).
  destruct event as [s p|p raw|p|p|channelId]; open_program; unfold _addActiveConnection;
    walk untouched;
    first [ apply _removeActiveConnection_untouched; intros; assumption
          | apply watchChannel_untouched; intros; assumption
          | apply _rateLimitRebalance_unique_blocks
          | apply confirmPayment_unique_blocks ].
Qed.

End Shapes.

(** A reconnection of B at A. *)
Lemma sessions_stay_unique_witness :
  unique_sessions (Scenario.nodeA 100000 900000 [])
  /\ unique_sessions
       (snd (handle (Scenario.envA (1 # 2)) (connection 2%nat "meshB")
               (Scenario.nodeA 100000 900000 []))).
Proof.
  assert (H : unique_sessions (Scenario.nodeA 100000 900000 [])).
  { unfold unique_sessions. simpl. constructor; [intros []|constructor]. }
  split; [exact H|].
  apply (sessions_stay_unique (Scenario.envA (1 # 2)) (connection 2%nat "meshB")). exact H.
Defined.


(** B's greeting arrives at A, which lists [C1] with B's LN key. *)
Lemma owners_stay_unique_witness :
  let greeting :=
    {| env_message := Hello "lnB" "B"; env_timestamp := Scenario.now0;
       env_signature := "s:1700000000000:meshB" |} in
  let E := Scenario.env Scenario.now0 (Some greeting)
             (Some [{| lc_id := "C1"; lc_partner_public_key := "lnB";
                       lc_local_balance := 100000; lc_remote_balance := 900000;
                       lc_capacity := 1000001; lc_is_active := true |}])
             None None None (1 # 2) 10 in
  let w := Scenario.nodeA 100000 900000 [] in
  unique_owners w
  /\ unique_owners (snd (handle E (data "meshB" "{}") w)).
Proof.
  cbv zeta.
  assert (H : unique_owners (Scenario.nodeA 100000 900000 [])).
  { unfold unique_owners. simpl. constructor; [intros []|constructor]. }
  split; [exact H|].
  apply owners_stay_unique. exact H.
Defined.

Lemma watch_list_stays_duplicate_free_witness :
  let greeting :=
    {| env_message := Hello "lnB" "B"; env_timestamp := Scenario.now0;
       env_signature := "s:1700000000000:meshB" |} in
  let E := Scenario.env Scenario.now0 (Some greeting)
             (Some [{| lc_id := "C1"; lc_partner_public_key := "lnB";
                       lc_local_balance := 100000; lc_remote_balance := 900000;
                       lc_capacity := 1000001; lc_is_active := true |}])
             None None None (1 # 2) 10 in
  let w := Scenario.nodeA 100000 900000 [] in
  unique_watches w
  /\ unique_watches (snd (handle E (data "meshB" "{}") w)).
Proof.
  cbv zeta.
  assert (H : unique_watches (Scenario.nodeA 100000 900000 [])).
  { unfold unique_watches. simpl. constructor; [intros []|constructor]. }
  split; [exact H|].
  apply watch_list_stays_duplicate_free. exact H.
Defined.

(** A tick on [C1] at A, whose block of [C1] has run out. *)
Lemma blocks_stay_unique_witness :
  let w := Scenario.nodeA 100000 900000
             [{| blk_id := "C1"; blk_until := Scenario.now0 - 1 |}] in
  unique_blocks w
  /\ unique_blocks (snd (handle (Scenario.envA (1 # 2)) (consider "C1") w)).
Proof.
  cbv zeta.
  assert (H : unique_blocks
                (Scenario.nodeA 100000 900000
                   [{| blk_id := "C1"; blk_until := Scenario.now0 - 1 |}])).
  { unfold unique_blocks. simpl. constructor; [intros []|constructor]. }
  split; [exact H|].
  apply blocks_stay_unique. exact H.
Defined.

(** * Greetings *)

Section Greeting.

Variables (remotePeer publicKey : string).

Abbreviation step := (greet_owner remotePeer publicKey).

(** The loop of [_onHello] over the shared channels. *)
Lemma greet_run (shared : list Channel) :
  forall w, exists lines,
    forEach shared (fun c =>
      logging (logEvent "peerSharedChannel") ;;;
      modify (set_tightrope (fun t =>
        set_channelOwners
          (filter (fun owner => negb (own_channelId owner =? ch_id c)%string)
                  (channelOwners t)
           ++ [{| own_channelId := ch_id c; own_remotePeer := remotePeer;
                  own_remoteLightning := publicKey |}]) t)) ;;;
      watchChannel (ch_id c)) w =
    (Returned tt,
     {| tightrope :=
          set_channelOwners (fold_left step shared (channelOwners (tightrope w)))
            (tightrope w);
        lightning :=
          set_watchList (fold_left greet_watch shared (watchList (lightning w)))
            (lightning w);
        transactions := transactions w;
        effects := effects w;
        log := (log w ++ lines)%list |}).
Proof.
  induction shared as [|c shared IH]; intro w.
  - exists []. simpl. unfold ret. rewrite app_nil_r.
    destruct w as [[? ? ? ?] [? ? ? ? ? ?] ? ? ?]. reflexivity.
  - simpl forEach.
    set (w1 := set_tightrope
                 (fun t => set_channelOwners (step (channelOwners t) c) t)
                 (with_log (logEvent "peerSharedChannel") w)).
    destruct (watchChannel_run (ch_id c) w1) as [l1 H1].
    match type of H1 with _ = (_, ?v) => destruct (IH v) as [l2 H2] end.
    exists ([logEvent "peerSharedChannel"] ++ l1 ++ l2)%list.
    erewrite bind_returned.
    2:{ erewrite bind_returned; [|reflexivity].
        erewrite bind_returned; [|reflexivity].
        exact H1. }
    rewrite H2. simpl. rewrite <- !app_assoc. reflexivity.
Qed.

(** What the loop leaves in the two lists. *)
Lemma greeted_is_owner (shared : list Channel) (owners : list Owner) (c : Channel) :
  In c shared -> In (greeted remotePeer publicKey c) (fold_left step shared owners).
Proof.
  revert owners. induction shared as [|x shared IH] using rev_ind; intros owners Hin;
    [destruct Hin|].
  rewrite fold_left_app. simpl. unfold step at 1, greet_owner.
  apply in_app_or in Hin. destruct Hin as [Hin|[->|[]]].
  - destruct (ch_id c =? ch_id x)%string eqn:Hid.
    + apply String.eqb_eq in Hid. apply in_or_app. right. left.
      unfold greeted. rewrite Hid. reflexivity.
    + apply in_or_app. left. apply filter_In. split; [apply IH; exact Hin|].
      simpl. rewrite Hid. reflexivity.
  - apply in_or_app. right. left. reflexivity.
Qed.

Lemma greeted_is_watched (shared : list Channel) (watched : list string) (c : Channel) :
  In c shared -> In (ch_id c) (fold_left greet_watch shared watched).
Proof.
  revert watched. induction shared as [|x shared IH] using rev_ind; intros watched Hin;
    [destruct Hin|].
  rewrite fold_left_app. simpl. unfold greet_watch at 1.
  apply in_app_or in Hin. destruct Hin as [Hin|[->|[]]].
  - destruct (ch_id c =? ch_id x)%string eqn:Hid.
    + apply String.eqb_eq in Hid. apply in_or_app. right. left. symmetry. exact Hid.
    + apply in_or_app. left. apply filter_In. split; [apply IH; exact Hin|].
      rewrite Hid. reflexivity.
  - apply in_or_app. right. left. reflexivity.
Qed.

(** A record of the list afterwards is one that was there, for a channel
    that is not shared, or one the greeting made. *)
Lemma owner_after_greeting (shared : list Channel) (owners : list Owner) (o : Owner) :
  In o (fold_left step shared owners) ->
  (In o owners /\ ~ In (own_channelId o) (map ch_id shared))
  \/ (exists c, In c shared /\ o = greeted remotePeer publicKey c).
Proof.
  revert owners. induction shared as [|x shared IH] using rev_ind; intros owners Hin.
  - left. split; [exact Hin | intros []].
  - rewrite fold_left_app in Hin. simpl in Hin. unfold step at 1, greet_owner in Hin.
    apply in_app_or in Hin. destruct Hin as [Hin|[<-|[]]].
    + apply filter_In in Hin. destruct Hin as [Hin Hne].
      apply negb_true_iff, String.eqb_neq in Hne.
      destruct (IH owners Hin) as [[Hold Hfree]|[c [Hc ->]]].
      * left. split; [exact Hold|]. rewrite map_app. intro H.
        apply in_app_or in H. destruct H as [H|[H|[]]]; [exact (Hfree H)|].
        apply Hne. symmetry. exact H.
      * right. exists c. split; [apply in_or_app; left; exact Hc | reflexivity].
    + right. exists x. split; [apply in_or_app; right; left|]; reflexivity.
Qed.

Lemma unshared_owner_stays (shared : list Channel) (owners : list Owner) (o : Owner) :
  In o owners -> ~ In (own_channelId o) (map ch_id shared) ->
  In o (fold_left step shared owners).
Proof.
  revert owners. induction shared as [|x shared IH]; intros owners Hin Hfree;
    [exact Hin|].
  simpl. apply IH.
  - unfold step, greet_owner. apply in_or_app. left. apply filter_In.
    split; [exact Hin|]. apply negb_true_iff, String.eqb_neq.
    intro H. apply Hfree. left. symmetry. exact H.
  - intro H. apply Hfree. right. exact H.
Qed.

End Greeting.

(** [_onHello] in one step. *)
Lemma _onHello_run (E : Env) (remotePeer publicKey alias : string) (w : World) :
  let shared :=
    filter (fun c => (ch_remotePublicKey c =? publicKey)%string)
           (refreshedChannels E (lightning w)) in
  exists w',
    _onHello E remotePeer publicKey alias w = (Returned tt, w')
    /\ channelOwners (tightrope w') =
         fold_left (greet_owner remotePeer publicKey) shared (channelOwners (tightrope w))
    /\ watchList (lightning w') = fold_left greet_watch shared (watchList (lightning w))
    /\ activeConnections (tightrope w') = activeConnections (tightrope w)
    /\ blockedPending (lightning w') = blockedPending (lightning w)
    /\ transactions w' = transactions w.
Proof.
  intro shared.
  destruct (_refreshChannelList_run E (with_log (logEvent "peerHello") w)) as [l1 H1].
  match type of H1 with _ = (_, ?v) =>
    destruct (greet_run remotePeer publicKey shared v) as [l2 H2] end.
  eexists. split.
  - unfold _onHello.
    erewrite bind_returned; [|reflexivity].
    erewrite bind_returned.
    2:{ unfold findChannelsFromPubKey. erewrite bind_returned; [|exact H1].
        reflexivity. }
    exact H2.
  - simpl. repeat split.
Qed.

(** X5: after a greeting of [remotePeer] with LN key [publicKey], every
    channel of the refreshed view whose remote key is [publicKey] has the
    record that binds it to [remotePeer], is on the watch list, and has no
    record that binds it to anyone else; every record afterwards is one of
    before or one of [remotePeer]; and the records of the channels that
    are not shared are all still there. *)
Theorem greeting_binds_shared_channels :
  forall (E : Env) (w : World) (remotePeer publicKey alias : string),
    let w' := snd (_onHello E remotePeer publicKey alias w) in
    let shared c :=
      In c (refreshedChannels E (lightning w)) /\ ch_remotePublicKey c = publicKey in
    (forall c, shared c ->
       In {| own_channelId := ch_id c; own_remotePeer := remotePeer;
             own_remoteLightning := publicKey |} (channelOwners (tightrope w'))
       /\ In (ch_id c) (watchList (lightning w'))
       /\ forall o, In o (channelOwners (tightrope w')) ->
                    own_channelId o = ch_id c ->
                    own_remotePeer o = remotePeer /\ own_remoteLightning o = publicKey)
    /\ (forall o, In o (channelOwners (tightrope w')) ->
                  In o (channelOwners (tightrope w)) \/ own_remotePeer o = remotePeer)
    /\ (forall o, In o (channelOwners (tightrope w)) ->
                  (forall c, shared c -> ch_id c <> own_channelId o) ->
                  In o (channelOwners (tightrope w'))).
Proof.
  intros E w remotePeer publicKey alias w' shared.
  destruct (_onHello_run E remotePeer publicKey alias w)
    as [v [Hrun [Howners [Hwatch _]]]].
  subst w'. rewrite Hrun. simpl. rewrite Howners, Hwatch.
  set (l := filter (fun c => (ch_remotePublicKey c =? publicKey)%string)
                   (refreshedChannels E (lightning w))).
  assert (Hshared : forall c, shared c <-> In c l).
  { intro c. unfold shared, l. rewrite filter_In, String.eqb_eq. tauto. }
  split; [|split].
  - intros c Hc. apply Hshared in Hc. split; [|split].
    + apply (greeted_is_owner remotePeer publicKey). exact Hc.
    + apply greeted_is_watched. exact Hc.
    + intros o Ho Hid.
      destruct (owner_after_greeting remotePeer publicKey _ _ _ Ho)
        as [[_ Hfree]|[c' [_ ->]]]; [|split; reflexivity].
      exfalso. apply Hfree. rewrite Hid. apply in_map. exact Hc.
  - intros o Ho.
    destruct (owner_after_greeting remotePeer publicKey _ _ _ Ho)
      as [[Hold _]|[c' [_ ->]]]; [left; exact Hold | right; reflexivity].
  - intros o Ho Hfree. apply unshared_owner_stays; [exact Ho|].
    intro Hin. apply in_map_iff in Hin. destruct Hin as [c [Hid Hc]].
    apply (Hfree c); [apply Hshared; exact Hc | exact Hid].
Qed.

(** A greeting with B's LN key arrives at A from another mesh peer: the
    record of [C1] is now that peer's. *)
Lemma greeting_binds_shared_channels_witness :
  let E := Scenario.env Scenario.now0 None
             (Some [{| lc_id := "C1"; lc_partner_public_key := "lnB";
                       lc_local_balance := 100000; lc_remote_balance := 900000;
                       lc_capacity := 1000001; lc_is_active := true |}])
             None None None (1 # 2) 10 in
  let w := Scenario.nodeA 100000 900000 [] in
  let w' := snd (_onHello E "meshX" "lnB" "B2" w) in
  In (Scenario.channelA 100000 900000) (refreshedChannels E (lightning w))
  /\ In {| own_channelId := "C1"; own_remotePeer := "meshX";
           own_remoteLightning := "lnB" |} (channelOwners (tightrope w'))
  /\ In "C1" (watchList (lightning w')).
Proof.
  cbv zeta.
  assert (H : In (Scenario.channelA 100000 900000)
                 (refreshedChannels
                    (Scenario.env Scenario.now0 None
                       (Some [{| lc_id := "C1"; lc_partner_public_key := "lnB";
                                 lc_local_balance := 100000; lc_remote_balance := 900000;
                                 lc_capacity := 1000001; lc_is_active := true |}])
                       None None None (1 # 2) 10)
                    (lightning (Scenario.nodeA 100000 900000 []))))
    by (left; reflexivity).
  split; [exact H|].
  destruct (greeting_binds_shared_channels
              (Scenario.env Scenario.now0 None
                 (Some [{| lc_id := "C1"; lc_partner_public_key := "lnB";
                           lc_local_balance := 100000; lc_remote_balance := 900000;
                           lc_capacity := 1000001; lc_is_active := true |}])
                 None None None (1 # 2) 10)
              (Scenario.nodeA 100000 900000 []) "meshX" "lnB" "B2") as [Hbind _].
  destruct (Hbind (Scenario.channelA 100000 900000) (conj H eq_refl)) as [Ho [Hw _]].
  split; [exact Ho | exact Hw].
Defined.

(** * The handshake and the envelope *)

(** X6: on a connection the program writes exactly one message, the
    [hello] with its own LN key and alias, signed with its own mesh key,
    and writes it to the socket of that connection, also when the key had
    a session on another socket. *)
Theorem connection_greets_on_the_new_socket :
  forall (E : Env) (socket : nat) (remotePublicKey : string) (w : World),
    effects (snd (_onOpenConnection E socket remotePublicKey w)) =
      (effects w
       ++ [SocketWrite socket
             {| env_message := Hello (publicKey (lightning w)) (alias (lightning w));
                env_timestamp := Date_now E;
                env_signature :=
                  signMessage E (secret (tightrope w)) (Date_now E)
                    (myPublicKey (tightrope w))
                    (Hello (publicKey (lightning w)) (alias (lightning w))) |}])%list.
Proof.
  intros E socket remotePublicKey w.
  destruct (_addActiveConnection_run remotePublicKey socket
              (with_log (logEvent "peerConnected") w)) as [lines Hadd].
  unfold _onOpenConnection.
  erewrite bind_returned; [|reflexivity].
  erewrite bind_returned; [|exact Hadd].
  unfold bind at 1. unfold get at 1. unfold _sendMessage.
  unfold bind at 1. unfold get at 1.
  unfold _findConnection.
  cbn [activeConnections tightrope set_tightrope set_activeConnections forgotten].
  assert (Hfind : forall l,
            find (fun c => (conn_remotePublicKey c =? remotePublicKey)%string)
                 (filter (fun c => negb (conn_remotePublicKey c =? remotePublicKey)%string) l
                  ++ [{| conn_remotePublicKey := remotePublicKey; conn_socket := socket |}])
            = Some {| conn_remotePublicKey := remotePublicKey; conn_socket := socket |}).
  { intro l. induction l as [|c l IH]; simpl.
    - rewrite String.eqb_refl. reflexivity.
    - destruct (conn_remotePublicKey c =? remotePublicKey)%string eqn:Hc; simpl.
      + exact IH.
      + rewrite Hc. exact IH. }
  rewrite Hfind. reflexivity.
Qed.

(** X7: what [_sendMessage] writes for a peer it has a session with is
    one envelope, and that envelope, parsed at a node that has the same
    secret and signing function and whose clock is within 5000 ms of the
    sender's, passes both checks of [_onMessage] when it arrives on the
    session of the sender's mesh key, and reaches the handler of its
    type. *)
Theorem sent_message_is_accepted :
  forall (E E' : Env) (sender receiver : World) (to raw : string) (message : Message)
         (socket : nat),
    _findConnection to (tightrope sender) = Some socket ->
    secret (tightrope receiver) = secret (tightrope sender) ->
    signMessage E' = signMessage E ->
    JSON_parse E' raw = Some (signed E (tightrope sender) message) ->
    Z.abs (Date_now E' - Date_now E) <= 5000 ->
    effects (snd (_sendMessage E to message sender)) =
      (effects sender ++ [SocketWrite socket (signed E (tightrope sender) message)])%list
    /\ accepted E' receiver (myPublicKey (tightrope sender)) raw
    /\ _onMessage E' (myPublicKey (tightrope sender)) raw receiver =
         try_catch
           match message with
           | Hello publicKey alias =>
               _onHello E' (myPublicKey (tightrope sender)) publicKey alias
           | PayInvoice msg => _onPayInvoice E' (myPublicKey (tightrope sender)) msg
           | PaymentResult msg result =>
               _onPaymentResult E' (myPublicKey (tightrope sender)) msg result
           | Unknown _ => logging (logError "Unknown message from peer")
           end
           (logging (logError "failed handling incoming message from peer")) receiver.
Proof.
  intros E E' sender receiver to raw message socket Hconn Hsecret Hsign Hparse Hclock.
  assert (Hsig : signMessage E' (secret (tightrope receiver))
                   (env_timestamp (signed E (tightrope sender) message))
                   (myPublicKey (tightrope sender))
                   (env_message (signed E (tightrope sender) message))
                 = env_signature (signed E (tightrope sender) message)).
  { simpl. rewrite Hsecret, Hsign. reflexivity. }
  split; [|split].
  - unfold _sendMessage. unfold bind, get. rewrite Hconn. reflexivity.
  - exists (signed E (tightrope sender) message).
    split; [exact Hparse|]. split; [exact Hsig|].
    apply fresh_integer. exact Hclock.
  - assert (Hage : less 5000
                     (Math_abs (subtract (Date_now E')
                                  (env_timestamp (signed E (tightrope sender) message))))
                   = false).
    { cbn [env_timestamp signed]. rewrite age_of_integer. apply Z.ltb_ge. exact Hclock. }
    rewrite (verified_message_is_handled E' receiver (myPublicKey (tightrope sender)) raw
               (signed E (tightrope sender) message) Hparse Hsig Hage).
    reflexivity.
Qed.

(** A's request reaches B three seconds later. *)
Lemma sent_message_is_accepted_witness :
  let E := Scenario.envA (1 # 2) in
  let sender := Scenario.nodeA 100000 900000 [] in
  let envelope := signed E (tightrope sender) (PayInvoice Scenario.request) in
  let E' := Scenario.env (Scenario.now0 + 3000) (Some envelope)
              (Some [Scenario.lndChannelB]) (Some (Scenario.decoded "lnA"))
              (Some (Some Scenario.paid)) None (1 # 2) 10 in
  _findConnection "meshB" (tightrope sender) = Some 1%nat
  /\ Z.abs (Date_now E' - Date_now E) <= 5000
  /\ accepted E' (Scenario.nodeB []) "meshA" "{}".
Proof.
  cbv zeta.
  split; [reflexivity|]. split; [vm_compute; discriminate|].
  apply (sent_message_is_accepted (Scenario.envA (1 # 2))
           (Scenario.env (Scenario.now0 + 3000)
              (Some (signed (Scenario.envA (1 # 2))
                       (tightrope (Scenario.nodeA 100000 900000 []))
                       (PayInvoice Scenario.request)))
              (Some [Scenario.lndChannelB]) (Some (Scenario.decoded "lnA"))
              (Some (Some Scenario.paid)) None (1 # 2) 10)
           (Scenario.nodeA 100000 900000 []) (Scenario.nodeB []) "meshB" "{}"
           (PayInvoice Scenario.request) 1%nat).
  - reflexivity.
  - reflexivity.
  - reflexivity.
  - reflexivity.
  - vm_compute. discriminate.
Defined.

(** * What the responder pays *)

Section Payer.

Variable E : Env.

Lemma _denyPaymentReason_verdict (channelId : string) (amount : Z) (w : World) :
  exists verdict,
    _denyPaymentReason E channelId amount w = (Returned verdict, w)
    /\ (v_allow verdict = true <-> within_limits E w amount).
Proof.
  unfold within_limits. cbv zeta.
  set (n := lightning w). set (since := limits_since E n).
  unfold _denyPaymentReason. unfold bind at 1. unfold get at 1. cbv zeta.
  fold n. fold (limits_period E n).
  change (if settings_useRollingLimitsPeriod E (alias n)
          then Date_now E - limits_period E n
          else Date_now E / limits_period E n * limits_period E n) with since.
  unfold bind at 1. rewrite transactions_filter_is_paid_since.
  fold (count_since (publicKey n) since (transactions w)).
  rewrite reduce_is_sum, Z.add_0_l.
  fold (amount_since (publicKey n) since (transactions w)).
  destruct (settings_maxTransactionsPerPeriod E (alias n)
            <=? count_since (publicKey n) since (transactions w)) eqn:Hcount.
  - eexists. split; [reflexivity|]. simpl. apply Z.leb_le in Hcount.
    split; [discriminate | lia].
  - apply Z.leb_gt in Hcount.
    destruct (settings_maxAmountPerPeriod E (alias n)
              <? amount_since (publicKey n) since (transactions w) + amount) eqn:Hsum.
    + eexists. split; [reflexivity|]. simpl. apply Z.ltb_lt in Hsum.
      split; [discriminate | lia].
    + eexists. split; [reflexivity|]. simpl. apply Z.ltb_ge in Hsum.
      split; [intros _; split; assumption | reflexivity].
Qed.

Variable msg : PayRequest.

Abbreviation decoding := (LnDecodePaymentRequest (msg_invoice msg)).
Abbreviation paying := (LnPay (msg_invoice msg) (msg_channelId msg)).

(** The calls [_shouldPayInvoice] may make, in order. *)
Abbreviation policy_calls calls :=
  (calls = [decoding] \/ calls = [decoding; LnGetChannels]).

(** [_shouldPayInvoice] returns, and what it returns allows the payment
    exactly when every check passes. *)
Lemma _shouldPayInvoice_cases (w : World) :
  exists shouldPay w1 calls,
    _shouldPayInvoice E msg w = (Returned shouldPay, w1)
    /\ tightrope w1 = tightrope w
    /\ transactions w1 = transactions w
    /\ effects w1 = (effects w ++ calls)%list
    /\ policy_calls calls
    /\ (allows shouldPay = true <-> payable E msg w).
Proof.
  assert (Htx : forall sp w1, _shouldPayInvoice E msg w = (Returned sp, w1) ->
                              transactions w1 = transactions w).
  { intros sp w1 H. pose proof (_shouldPayInvoice_keeps_transactions E msg w) as Hk.
    rewrite H in Hk. exact Hk. }
  destruct (lnService_decodePaymentRequest E (msg_invoice msg)) as [details|] eqn:Hdec.
  2:{ eexists SP_false, _, [decoding].
      split; [|split; [|split; [|split; [|split]]]].
      - unfold _shouldPayInvoice. cbv zeta. eapply eq_trans.
        + apply try_catch_thrown. apply bind_thrown. rewrite Hdec. apply await_rejected.
        + reflexivity.
      - reflexivity.
      - reflexivity.
      - reflexivity.
      - left. reflexivity.
      - split; [discriminate|]. intros [d [c [H _]]]. congruence. }
  assert (Hinvalid :
            same_number (toNumber (dec_tokens details)) (toNumber (msg_tokens msg)) = false
            \/ dec_destination details <> msg_paidTo msg
            \/ find (fun c => (ch_id c =? msg_channelId msg)%string)
                    (refreshedChannels E (lightning w)) = None
            \/ (exists channelInfo,
                  find (fun c => (ch_id c =? msg_channelId msg)%string)
                       (refreshedChannels E (lightning w)) = Some channelInfo
                  /\ ch_remotePublicKey channelInfo <> msg_paidTo msg) ->
            exists shouldPay w1 calls,
              _shouldPayInvoice E msg w = (Returned shouldPay, w1)
              /\ tightrope w1 = tightrope w
              /\ transactions w1 = transactions w
              /\ effects w1 = (effects w ++ calls)%list
              /\ policy_calls calls
              /\ (allows shouldPay = true <-> payable E msg w)).
  { intro Hbad.
    destruct (_shouldPayInvoice_invalid E msg details Hdec w Hbad)
      as [w1 [calls [Hsp [Ht [Heff Hcalls]]]]].
    exists (SP_object invalid_request), w1, calls.
    repeat split; try assumption; try discriminate.
    - apply (Htx _ _ Hsp).
    - intros [d [c [Hd [Htok [Hdest [Hfind [Hremote _]]]]]]].
      exfalso. rewrite Hdec in Hd. injection Hd as <-.
      destruct Hbad as [Hbad|[Hbad|[Hbad|[c' [Hsome Hbad]]]]];
        [congruence|contradiction|congruence|].
      rewrite Hfind in Hsome. injection Hsome as <-. contradiction. }
  destruct (same_number (toNumber (dec_tokens details)) (toNumber (msg_tokens msg)))
    eqn:Htokens; [|apply Hinvalid; tauto].
  destruct (string_dec (dec_destination details) (msg_paidTo msg)) as [Hdest|Hdest];
    [|apply Hinvalid; tauto].
  destruct (find (fun c => (ch_id c =? msg_channelId msg)%string)
                 (refreshedChannels E (lightning w))) as [channelInfo|] eqn:Hfind;
    [|apply Hinvalid; tauto].
  destruct (string_dec (ch_remotePublicKey channelInfo) (msg_paidTo msg))
    as [Hremote|Hremote];
    [|apply Hinvalid; right; right; right; exists channelInfo; tauto].
  clear Hinvalid.
  set (w0 := with_effect decoding w).
  assert (Hawait : await decoding (lnService_decodePaymentRequest E (msg_invoice msg)) w
                   = (Returned details, w0))
    by (apply await_resolved; exact Hdec).
  destruct (findChannelFromId_run E (msg_channelId msg) w0) as [lines Hrefresh].
  change (lightning w0) with (lightning w) in Hrefresh. rewrite Hfind in Hrefresh.
  destruct (_denyPaymentReason_verdict (msg_channelId msg) (msg_tokens msg)
              (refreshed E lines w0)) as [verdict [Hdeny Hallow]].
  assert (Hcalls : exists calls,
            effects (refreshed E lines w0) = (effects w ++ calls)%list
            /\ policy_calls calls).
  { unfold refreshed, w0. simpl. destruct (lnd (lightning w)).
    - eexists. rewrite <- app_assoc. split; [reflexivity|]. right. reflexivity.
    - eexists. rewrite app_nil_r. split; [reflexivity|]. left. reflexivity. }
  destruct Hcalls as [calls [Heff Hcalls]].
  assert (Hrun : exists w1,
            _shouldPayInvoice E msg w = (Returned (SP_object verdict), w1)
            /\ tightrope w1 = tightrope w
            /\ effects w1 = effects (refreshed E lines w0)).
  { apply String.eqb_eq in Hdest, Hremote.
    destruct (v_allow verdict) eqn:Hv.
    - exists (refreshed E lines w0). split; [|split; reflexivity].
      unfold _shouldPayInvoice. cbv zeta. apply try_catch_returned.
      rewrite (bind_returned _ _ _ _ _ Hawait). rewrite Htokens, Hdest. cbn [negb].
      rewrite (bind_returned _ _ _ _ _ Hrefresh). rewrite Hremote. cbn [negb].
      rewrite (bind_returned _ _ _ _ _ Hdeny). rewrite Hv. reflexivity.
    - eexists (with_log _ (refreshed E lines w0)). split; [|split; reflexivity].
      unfold _shouldPayInvoice. cbv zeta. apply try_catch_returned.
      rewrite (bind_returned _ _ _ _ _ Hawait). rewrite Htokens, Hdest. cbn [negb].
      rewrite (bind_returned _ _ _ _ _ Hrefresh). rewrite Hremote. cbn [negb].
      rewrite (bind_returned _ _ _ _ _ Hdeny). rewrite Hv. reflexivity. }
  destruct Hrun as [w1 [Hsp [Ht Heff1]]].
  exists (SP_object verdict), w1, calls.
  split; [exact Hsp|]. split; [exact Ht|]. split; [apply (Htx _ _ Hsp)|].
  split; [rewrite Heff1; exact Heff|]. split; [exact Hcalls|].
  simpl. rewrite Hallow. split.
  - intro Hlim. exists details, channelInfo. repeat split; try assumption; apply Hlim.
  - intros [d [c [_ [_ [_ [_ [_ Hlim]]]]]]]. exact Hlim.
Qed.

(** [payInvoice] returns, whatever the LN node answers; it calls [pay]
    only when every check passed, and says [confirmed] only of a payment
    that [pay] returned confirmed. *)
Lemma payInvoice_cases (w : World) :
  exists result w1 calls,
    payInvoice E msg w = (Returned result, w1)
    /\ tightrope w1 = tightrope w
    /\ effects w1 = (effects w ++ calls)%list
    /\ existsb is_write calls = false
    /\ ((~ payable E msg w
         /\ filter is_pay calls = []
         /\ res_confirmed result = false)
        \/ (payable E msg w
            /\ filter is_pay calls = [paying]
            /\ (res_confirmed result = true <->
                exists payment,
                  lnService_pay E (msg_invoice msg) (msg_channelId msg)
                    = Some (Some payment)
                  /\ pay_is_confirmed payment = true))).
Proof.
  destruct (_shouldPayInvoice_cases w)
    as [shouldPay [w1 [calls [Hsp [Ht [_ [Heff [Hcalls Hallow]]]]]]]].
  assert (Hquiet : existsb is_write calls = false /\ filter is_pay calls = [])
    by (destruct Hcalls as [-> | ->]; split; reflexivity).
  destruct Hquiet as [Hwrite Hpay].
  destruct (allows shouldPay) eqn:Hallows.
  2:{ exists (spread shouldPay None false None), w1, calls.
      split; [|split; [exact Ht|split; [exact Heff|split; [exact Hwrite|]]]].
      - unfold payInvoice.
        erewrite bind_returned;
          [|apply try_catch_returned; rewrite (bind_returned _ _ _ _ _ Hsp);
            rewrite Hallows; reflexivity].
        reflexivity.
      - left. split; [|split; [exact Hpay|]].
        + intro H. apply Hallow in H. discriminate.
        + destruct shouldPay; reflexivity. }
  assert (Hpayable : payable E msg w) by (apply Hallow; reflexivity).
  assert (Hcalls' : existsb is_write (calls ++ [paying]) = false
                    /\ filter is_pay (calls ++ [paying]) = [paying]).
  { rewrite existsb_app, filter_app, Hwrite, Hpay. split; reflexivity. }
  destruct Hcalls' as [Hwrite' Hpay'].
  assert (Heff' : forall v, effects v = effects (with_effect paying w1) ->
                            effects v = (effects w ++ calls ++ [paying])%list).
  { intros v ->. simpl. rewrite Heff, <- app_assoc. reflexivity. }
  destruct (lnService_pay E (msg_invoice msg) (msg_channelId msg))
    as [[payment|]|] eqn:Hanswer.
  - destruct (pay_is_confirmed payment) eqn:Hconfirmed.
    + eexists _, (with_log (logEvent "invoicePaid") (with_effect paying w1)),
        (calls ++ [paying])%list.
      split; [|split; [exact Ht|split; [apply Heff'; reflexivity
                                      |split; [exact Hwrite'|]]]].
      * unfold payInvoice.
        erewrite bind_returned.
        2:{ apply try_catch_returned. rewrite (bind_returned _ _ _ _ _ Hsp).
            rewrite Hallows. cbn [negb].
            erewrite bind_returned; [|apply await_resolved; exact Hanswer].
            cbv beta iota. rewrite Hconfirmed. reflexivity. }
        reflexivity.
      * right. split; [exact Hpayable|]. split; [exact Hpay'|].
        split; [intros _; exists payment; split; [reflexivity|exact Hconfirmed]|].
        intros _. destruct shouldPay; reflexivity.
    + exists payment_failed, (with_log (logEvent "paymentFailed") (with_effect paying w1)),
        (calls ++ [paying])%list.
      split; [|split; [exact Ht|split; [apply Heff'; reflexivity
                                      |split; [exact Hwrite'|]]]].
      * unfold payInvoice.
        erewrite bind_returned.
        2:{ apply try_catch_returned. rewrite (bind_returned _ _ _ _ _ Hsp).
            rewrite Hallows. cbn [negb].
            erewrite bind_returned; [|apply await_resolved; exact Hanswer].
            cbv beta iota. rewrite Hconfirmed. reflexivity. }
        reflexivity.
      * right. split; [exact Hpayable|]. split; [exact Hpay'|].
        split; [discriminate|].
        intros [p [Hp Hc]]. injection Hp as <-. congruence.
  - exists payment_failed, (with_log (logEvent "paymentFailed") (with_effect paying w1)),
      (calls ++ [paying])%list.
    split; [|split; [exact Ht|split; [apply Heff'; reflexivity
                                    |split; [exact Hwrite'|]]]].
    + unfold payInvoice.
      erewrite bind_returned.
      2:{ apply try_catch_returned. rewrite (bind_returned _ _ _ _ _ Hsp).
          rewrite Hallows. cbn [negb].
          erewrite bind_returned; [|apply await_resolved; exact Hanswer].
          reflexivity. }
      reflexivity.
    + right. split; [exact Hpayable|]. split; [exact Hpay'|].
      split; [discriminate|]. intros [p [Hp _]]. discriminate.
  - exists payment_failed,
      (with_log (logError "Failed to pay invoice") (with_effect paying w1)),
      (calls ++ [paying])%list.
    split; [|split; [exact Ht|split; [apply Heff'; reflexivity
                                    |split; [exact Hwrite'|]]]].
    + apply (pay_exception_is_payment_failed E msg w w1 shouldPay Hsp Hallows Hanswer).
    + right. split; [exact Hpayable|]. split; [exact Hpay'|].
      split; [discriminate|]. intros [p [Hp _]]. discriminate.
Qed.

End Payer.

(** X8: [payInvoice] calls [pay] once, for the invoice and with the
    channel of the request, when the invoice decodes to an amount that is
    the same number as the amount of the request and to the destination
    of the request, the channel is in the view just listed with the
    destination as its remote key, and the rolling limits leave room for
    the amount; otherwise it does not call [pay] at all. *)
Theorem pay_is_called_only_after_every_check :
  forall (E : Env) (msg : PayRequest) (w : World),
    exists calls,
      effects (snd (payInvoice E msg w)) = (effects w ++ calls)%list
      /\ ((payable E msg w
           /\ filter is_pay calls = [LnPay (msg_invoice msg) (msg_channelId msg)])
          \/ (~ payable E msg w /\ filter is_pay calls = [])).
Proof.
  intros E msg w.
  destruct (payInvoice_cases E msg w)
    as [result [w1 [calls [Hrun [_ [Heff [_ Hcases]]]]]]].
  exists calls. rewrite Hrun. split; [exact Heff|].
  destruct Hcases as [[Hno [Hpay _]]|[Hyes [Hpay _]]]; [right|left]; split; assumption.
Qed.

(** X9: to a [payInvoice] of a peer it has a session with, the responder
    writes exactly one message, a [paymentResult] that echoes the request,
    to that peer's socket, whatever the LN node answers or rejects; and
    the result says [confirmed] exactly when every check passed (the
    amounts being compared as numbers) and [pay] returned a confirmed
    payment. *)
Theorem payInvoice_is_always_answered :
  forall (E : Env) (remotePeer : string) (msg : PayRequest) (w : World) (socket : nat),
    _findConnection remotePeer (tightrope w) = Some socket ->
    exists calls result w',
      _onPayInvoice E remotePeer msg w = (Returned tt, w')
      /\ effects w' =
           (effects w ++ calls
            ++ [SocketWrite socket (signed E (tightrope w) (PaymentResult msg result))])%list
      /\ existsb is_write calls = false
      /\ (res_confirmed result = true <->
          payable E msg w
          /\ exists payment,
               lnService_pay E (msg_invoice msg) (msg_channelId msg) = Some (Some payment)
               /\ pay_is_confirmed payment = true).
Proof.
  intros E remotePeer msg w socket Hconn.
  destruct (payInvoice_cases E msg (with_log (logEvent "onPayInvoice") w))
    as [result [w1 [calls [Hrun [Ht [Heff [Hwrite Hcases]]]]]]].
  exists calls, result. eexists. split.
  - apply (_onPayInvoice_reply E remotePeer msg w w1 result socket Hrun Ht Hconn).
  - split; [simpl; rewrite Heff; simpl; rewrite <- app_assoc; reflexivity|].
    split; [exact Hwrite|].
    destruct Hcases as [[Hno [_ Hfalse]]|[Hyes [_ Hiff]]].
    + split; [congruence|]. intros [H _]. contradiction.
    + rewrite Hiff. tauto.
Qed.

(** The decoder of B's LN node rejects: B answers all the same. *)
Lemma payInvoice_is_always_answered_witness :
  let E := Scenario.envB None None in
  let w := Scenario.nodeB [] in
  _findConnection "meshA" (tightrope w) = Some 7%nat
  /\ exists calls result w',
       _onPayInvoice E "meshA" Scenario.request w = (Returned tt, w')
       /\ effects w' =
            (effects w ++ calls
             ++ [SocketWrite 7 (signed E (tightrope w)
                                  (PaymentResult Scenario.request result))])%list
       /\ existsb is_write calls = false
       /\ (res_confirmed result = true <->
           payable E Scenario.request w
           /\ exists payment,
                lnService_pay E "lnbc1" "C1" = Some (Some payment)
                /\ pay_is_confirmed payment = true).
Proof.
  cbv zeta. split; [reflexivity|].
  apply (payInvoice_is_always_answered (Scenario.envB None None) "meshA"
           Scenario.request (Scenario.nodeB []) 7%nat).
  reflexivity.
Defined.

(** * Errors stay inside the handlers *)

Section Returns.

Lemma returns_ret A (a : A) : returns (ret a).
Proof. intro w. exists a, w. reflexivity. Qed.

Lemma returns_get : returns get.
Proof. intro w. exists w, w. reflexivity. Qed.

Lemma returns_modify g : returns (modify g).
Proof. intro w. exists tt, (g w). reflexivity. Qed.

Lemma returns_bind A B (m : Js A) (k : A -> Js B) :
  returns m -> (forall a, returns (k a)) -> returns (bind m k).
Proof.
  intros Hm Hk w. destruct (Hm w) as [a [w1 H1]]. destruct (Hk a w1) as [b [w2 H2]].
  exists b, w2. rewrite (bind_returned _ _ _ _ _ H1). exact H2.
Qed.

(** A [try] whose [catch] returns, returns, whatever its block does. *)
Lemma returns_try_catch A (m h : Js A) : returns h -> returns (try_catch m h).
Proof.
  intros Hh w. unfold try_catch. destruct (m w) as [[a|] w1].
  - exists a, w1. reflexivity.
  - apply Hh.
Qed.

Lemma returns_forEach A (l : list A) (k : A -> Js unit) :
  (forall a, returns (k a)) -> returns (forEach l k).
Proof.
  intro Hk. induction l as [|x l IH]; simpl.
  - apply returns_ret.
  - apply returns_bind; auto.
Qed.

End Returns.

Ltac returns_all :=
  repeat match goal with
  | |- returns (bind _ _) => apply returns_bind; [ | intro ]
  | |- returns (try_catch _ _) => apply returns_try_catch
  | |- returns (ret _) => apply returns_ret
  | |- returns get => apply returns_get
  | |- returns (forEach _ _) => apply returns_forEach; intro
  | |- returns (modify _) => apply returns_modify
  | |- returns (logging _) => apply returns_modify
  | |- returns (perform _) => apply returns_modify
  | |- returns (transactions_add _ _) => apply returns_modify
  | |- returns (if ?b then _ else _) => destruct b
  | |- returns (match ?x with _ => _ end) => destruct x
  | |- returns (let _ := _ in _) => cbv zeta
  end.

(** X10: no handler lets an exception out: whatever the event, the data
    received and the answers or rejections of the LN node, the handler
    returns.  Each await of ln-service and the parse of the data stand in
    a [try] whose [catch] only logs. *)
Theorem handlers_never_throw :
  forall (E : Env) (event : Event) (w : World),
    exists w', handle E event w = (Returned tt, w').
Proof.
  intros E event w.
  assert (H : returns (handle E event)).
  { destruct event as [s p|p raw|p|p|channelId]; open_program;
      unfold _addActiveConnection, _removeActiveConnection, watchChannel, unwatchChannel,
        confirmPayment, _rateLimitRebalance;
      returns_all. }
  destruct (H w) as [[] [w' Hw]]. exists w'. exact Hw.
Qed.

(** X11: the data a socket delivers and the look of the poll at a channel
    never change the table of sessions: a message that fails, is refused
    or cannot be answered leaves every session in place. *)
Theorem messages_and_ticks_keep_the_sessions :
  forall (E : Env) (w : World),
    (forall remotePeer raw,
        activeConnections (tightrope (snd (handle E (data remotePeer raw) w)))
        = activeConnections (tightrope w))
    /\ (forall channelId,
          activeConnections (tightrope (snd (handle E (consider channelId) w)))
          = activeConnections (tightrope w)).
Proof.
  intros E w.
  assert (H : forall event,
            match event with data _ _ | consider _ => True | _ => False end ->
            respects (same (fun v => activeConnections (tightrope v))) (handle E event)).
  { intros event Hevent.
    destruct event as [s p|p raw|p|p|channelId]; try destruct Hevent; open_program;
      unfold watchChannel, unwatchChannel, confirmPayment, _rateLimitRebalance;
      walk ltac:(intro; reflexivity). }
  split.
  - intros remotePeer raw. apply (H (data remotePeer raw) I).
  - intros channelId. apply (H (consider channelId) I).
Qed.

(** * The time a rejection names *)

Lemma _denyPaymentReason_retryAt (E : Env) (channelId : string) (amount : Z)
    (w w' : World) (verdict : Verdict) :
  _denyPaymentReason E channelId amount w = (Returned verdict, w') ->
  v_allow verdict = false ->
  v_retryAt verdict
    = Some (limits_since E (lightning w) + limits_period E (lightning w) + 1).
Proof.
  unfold _denyPaymentReason, transactions_filter, bind, get, ret, limits_since,
    limits_period. simpl.
  repeat match goal with |- context [if ?b then _ else _] => destruct b end;
    intros H Hallow; injection H as <- _; try reflexivity; discriminate.
Qed.

(** X12: the [retryAt] of a rejection by the rolling limits, for a period
    that is positive, is later than now and at most a period and a
    millisecond away; when the limits roll it is the very next
    millisecond; with fixed windows it is one millisecond into the next
    window. *)
Theorem rejection_names_a_later_time :
  forall (E : Env) (w w' : World) (channelId : string) (amount : Z) (verdict : Verdict),
    let period := limits_period E (lightning w) in
    let rolling := settings_useRollingLimitsPeriod E (alias (lightning w)) in
    0 < period ->
    _denyPaymentReason E channelId amount w = (Returned verdict, w') ->
    v_allow verdict = false ->
    exists retryAt,
      v_retryAt verdict = Some retryAt
      /\ Date_now E < retryAt <= Date_now E + period + 1
      /\ (rolling = true -> retryAt = Date_now E + 1)
      /\ (rolling = false ->
          (retryAt - 1) mod period = 0
          /\ (retryAt - 1) / period = Date_now E / period + 1).
Proof.
  intros E w w' channelId amount verdict period rolling Hperiod Hrun Hallow.
  rewrite (_denyPaymentReason_retryAt E channelId amount w w' verdict Hrun Hallow).
  eexists. split; [reflexivity|].
  unfold limits_since. fold period. fold rolling.
  pose proof (Z.mul_div_le (Date_now E) period Hperiod) as Hlo.
  pose proof (Z.mul_succ_div_gt (Date_now E) period Hperiod) as Hhi.
  destruct rolling.
  - split; [lia|]. split; [intros _; lia | discriminate].
  - split; [lia|]. split; [discriminate|]. intros _.
    replace (Date_now E / period * period + period + 1 - 1)
      with ((Date_now E / period + 1) * period) by lia.
    split; [apply Z_mod_mult | apply Z_div_mult; lia].
Qed.

(** S4: B, with its two payments of the day made, refuses the third. *)
Lemma rejection_names_a_later_time_witness :
  let E := Scenario.env Scenario.now0 None (Some [Scenario.lndChannelB])
             (Some (Scenario.decoded "lnA")) (Some (Some Scenario.paid)) None (1 # 2) 2 in
  let w := Scenario.nodeB [Scenario.paidByB (Scenario.now0 - 7200000);
                           Scenario.paidByB (Scenario.now0 - 3600000)] in
  exists verdict,
    _denyPaymentReason E "C1" 400000 w = (Returned verdict, w)
    /\ v_allow verdict = false
    /\ v_retryAt verdict = Some (Scenario.now0 + 1).
Proof.
  cbv zeta. eexists. split; [vm_compute; reflexivity|]. split; [reflexivity|].
  match goal with
  | |- v_retryAt ?v = _ =>
      destruct (rejection_names_a_later_time
                  (Scenario.env Scenario.now0 None (Some [Scenario.lndChannelB])
                     (Some (Scenario.decoded "lnA")) (Some (Some Scenario.paid)) None
                     (1 # 2) 2)
                  (Scenario.nodeB [Scenario.paidByB (Scenario.now0 - 7200000);
                                   Scenario.paidByB (Scenario.now0 - 3600000)])
                  (Scenario.nodeB [Scenario.paidByB (Scenario.now0 - 7200000);
                                   Scenario.paidByB (Scenario.now0 - 3600000)])
                  "C1" 400000 v eq_refl eq_refl eq_refl)
        as [retryAt [Hretry [_ [Hrolling _]]]]
  end.
  rewrite Hretry, (Hrolling eq_refl). reflexivity.
Defined.

(** * The life of a block *)

Section Blocks.

Variable channel : Channel.

Abbreviation of_channel := (fun c : Block => (blk_id c =? ch_id channel)%string).

(** Looking for the channel's block among the live ones of a list that
    holds one block of the channel, the last. *)
Lemma find_last_block (p : Block -> bool) (others : list Block) (b : Block) :
  (forall c, In c others -> of_channel c = false) ->
  of_channel b = true ->
  find of_channel (filter p (others ++ [b])) = if p b then Some b else None.
Proof.
  intros Hothers Hb. rewrite filter_app. simpl.
  assert (Hnone : find of_channel (filter p others) = None).
  { induction others as [|c l IH]; simpl; [reflexivity|].
    assert (Hc : of_channel c = false) by (apply Hothers; left; reflexivity).
    destruct (p c); simpl.
    - simpl in Hc. rewrite Hc. apply IH. intros x Hx. apply Hothers. right. exact Hx.
    - apply IH. intros x Hx. apply Hothers. right. exact Hx. }
  assert (Happ : forall l1 l2, find of_channel l1 = None ->
                               find of_channel (l1 ++ l2) = find of_channel l2).
  { intros l1 l2. induction l1 as [|c l IH]; simpl; [reflexivity|].
    destruct (blk_id c =? ch_id channel)%string; [discriminate | exact IH]. }
  rewrite (Happ _ _ Hnone). destruct (p b); simpl; [|reflexivity].
  simpl in Hb. rewrite Hb. reflexivity.
Qed.

Lemma others_after_filter (l : list Block) (c : Block) :
  In c (filter (fun c => negb (blk_id c =? ch_id channel)%string) l) ->
  of_channel c = false.
Proof.
  intro H. apply filter_In in H. destruct H as [_ H].
  apply negb_true_iff in H. exact H.
Qed.

(** X13: once the requester has handled a result that is not confirmed
    and carries a [retryAt] other than zero, the rate limiter refuses the
    channel at every time before [retryAt] and lets it through from
    [retryAt] on; once it has handled a confirmed result, the rate limiter
    lets the channel through at any time. *)
Theorem retryAt_is_honoured :
  forall (E E' : Env) (remotePeer : string) (msg : PayRequest) (result : PayResult)
         (w : World),
    let w' := snd (_onPaymentResult E remotePeer msg result w) in
    msg_channelId msg = ch_id channel ->
    (res_confirmed result = true ->
     fst (_rateLimitRebalance E' channel w') = Returned false)
    /\ (forall retryAt,
          res_confirmed result = false ->
          res_retryAt result = Some retryAt ->
          retryAt <> 0 ->
          (Date_now E' < retryAt ->
           fst (_rateLimitRebalance E' channel w') = Returned true)
          /\ (retryAt <= Date_now E' ->
              fst (_rateLimitRebalance E' channel w') = Returned false)).
Proof.
  intros E E' remotePeer msg result w w' Hid.
  assert (Hblocks : blockedPending (lightning w') =
            blockedPending (lightning
              (snd (confirmPayment (msg_channelId msg) (res_confirmed result)
                      (res_retryAt result) w)))).
  { subst w'. unfold _onPaymentResult, transactions_add, logging, bind, modify. simpl.
    destruct (confirmPayment _ _ _ _) as [[[]|] v] eqn:Hc;
      unfold confirmPayment, bind, modify in *; simpl in *;
      destruct (res_confirmed result); simpl in *;
      try destruct (res_retryAt result) as [r|]; simpl in *;
      try destruct (r =? 0); simpl in *;
      try discriminate; injection Hc as <-; reflexivity. }
  assert (Hrun : forall v, fst (_rateLimitRebalance E' channel v) =
            match find of_channel (live_blocks E' (lightning v)) with
            | Some _ => Returned true
            | None => Returned false
            end).
  { intro v. rewrite _rateLimitRebalance_run. destruct (find _ _); reflexivity. }
  rewrite Hrun. unfold live_blocks. rewrite Hblocks, Hid. split.
  - intros ->. rewrite confirmPayment_confirmed.
    destruct (find of_channel _) as [b|] eqn:Hfind; [|reflexivity].
    apply find_some in Hfind. destruct Hfind as [Hin Hb].
    apply filter_In in Hin. destruct Hin as [Hin _].
    apply others_after_filter in Hin. simpl in *. congruence.
  - intros retryAt -> -> Hnonzero.
    rewrite (confirmPayment_retryAt _ _ _ Hnonzero).
    rewrite find_last_block;
      [|apply others_after_filter|simpl; apply String.eqb_refl].
    simpl. split; intro Htime.
    + apply Z.ltb_lt in Htime. rewrite Htime. reflexivity.
    + apply Z.ltb_ge in Htime. rewrite Htime. reflexivity.
Qed.

(** X14: when the rate limiter has let a channel through at [now], it
    refuses the channel at every time before
    [now + minTimeBetweenPayments] and lets it through again from then
    on, as long as no result is handled in between. *)
Theorem ticks_are_spaced :
  forall (E E' : Env) (w w1 : World),
    let until :=
      Date_now E
      + timeToMilliseconds E
          (settings_minTimeBetweenPayments E (alias (lightning w)) (ch_id channel)) in
    _rateLimitRebalance E channel w = (Returned false, w1) ->
    (Date_now E' < until -> fst (_rateLimitRebalance E' channel w1) = Returned true)
    /\ (until <= Date_now E' -> fst (_rateLimitRebalance E' channel w1) = Returned false).
Proof.
  intros E E' w w1 until Hfirst.
  rewrite _rateLimitRebalance_run in Hfirst.
  destruct (find of_channel (live_blocks E (lightning w))) as [b|] eqn:Hfind;
    [discriminate|].
  injection Hfirst as <-.
  rewrite _rateLimitRebalance_run. unfold live_blocks at 1 3. simpl blockedPending.
  rewrite find_last_block.
  - simpl. fold until. split; intro Htime.
    + apply Z.ltb_lt in Htime. rewrite Htime. reflexivity.
    + apply Z.ltb_ge in Htime. rewrite Htime. reflexivity.
  - intros c Hc. apply (find_none _ _ Hfind c Hc).
  - simpl. apply String.eqb_refl.
Qed.

End Blocks.

(** S4 at A: the result carries [retryAt], a day and a millisecond after
    the request; an hour later [C1] is still refused. *)
Lemma retryAt_is_honoured_witness :
  let E := Scenario.envA (1 # 2) in
  let E' := Scenario.env (Scenario.now0 + 3600000) None (Some []) None None
              (Some "lnbc2") (1 # 2) 10 in
  let result :=
    {| res_allow := Some false; res_reason := Some "2 transactions in last 1d. Limit is 2";
       res_retryAt := Some (Scenario.now0 + 86400001); res_paymentId := None;
       res_confirmed := false; res_confirmedAt := None |} in
  let w := Scenario.nodeA 100000 900000
             [{| blk_id := "C1"; blk_until := Scenario.now0 + 300000 |}] in
  msg_channelId Scenario.request = ch_id (Scenario.channelA 100000 900000)
  /\ Date_now E' < Scenario.now0 + 86400001
  /\ fst (_rateLimitRebalance E' (Scenario.channelA 100000 900000)
            (snd (_onPaymentResult E "meshB" Scenario.request result w)))
     = Returned true.
Proof.
  cbv zeta. split; [reflexivity|]. split; [reflexivity|].
  refine (proj1 (proj2 (retryAt_is_honoured (Scenario.channelA 100000 900000)
                          (Scenario.envA (1 # 2))
                          (Scenario.env (Scenario.now0 + 3600000) None (Some []) None None
                             (Some "lnbc2") (1 # 2) 10)
                          "meshB" Scenario.request
                          {| res_allow := Some false;
                             res_reason := Some "2 transactions in last 1d. Limit is 2";
                             res_retryAt := Some (Scenario.now0 + 86400001);
                             res_paymentId := None;
                             res_confirmed := false; res_confirmedAt := None |}
                          (Scenario.nodeA 100000 900000
                             [{| blk_id := "C1"; blk_until := Scenario.now0 + 300000 |}])
                          eq_refl)
                   (Scenario.now0 + 86400001) eq_refl eq_refl _) _).
  - discriminate.
  - reflexivity.
Defined.

(** Two ticks on [C1] at the same millisecond: the second is refused. *)
Lemma ticks_are_spaced_witness :
  let E := Scenario.envA (1 # 2) in
  let channel := Scenario.channelA 100000 900000 in
  let w := Scenario.nodeA 100000 900000 [] in
  _rateLimitRebalance E channel w = (Returned false, cooled E channel w)
  /\ fst (_rateLimitRebalance E channel (cooled E channel w)) = Returned true.
Proof.
  cbv zeta. split; [reflexivity|].
  refine (proj1 (ticks_are_spaced (Scenario.channelA 100000 900000)
                   (Scenario.envA (1 # 2)) (Scenario.envA (1 # 2))
                   (Scenario.nodeA 100000 900000 []) _ eq_refl) _).
  reflexivity.
Defined.

(** * What a dispatch leaves behind *)

Section Dispatch.

Variables (E : Env) (channel : Channel) (invoiceAmount : Q) (w : World).

Abbreviation dispatched := (snd (_rebalanceChannel E channel invoiceAmount w)).
Abbreviation asked := (toFixed0 invoiceAmount).



End Dispatch.



(** * Watching and unwatching *)

Lemma count_occ_replace (k : string) (l : list string) :
  count_occ string_dec (filter (fun c => negb (c =? k)%string) l ++ [k]) k = 1%nat.
Proof.
  rewrite count_occ_app. simpl. destruct (string_dec k k) as [_|H]; [|contradiction].
  replace (count_occ string_dec (filter (fun c => negb (c =? k)%string) l) k) with 0%nat;
    [reflexivity|].
  symmetry. apply count_occ_not_In. intro Hin. apply filter_In in Hin.
  destruct Hin as [_ Hne]. rewrite String.eqb_refl in Hne. discriminate.
Qed.

(** X17: after [watchChannel] the channel is on the watch list exactly
    once, however often it was there before, and after [unwatchChannel] it
    is not there at all; either way every other channel is there as often
    as before. *)
Theorem watch_and_unwatch :
  forall (channelId : string) (w : World),
    let watched := snd (watchChannel channelId w) in
    let unwatched := snd (unwatchChannel channelId w) in
    count_occ string_dec (watchList (lightning watched)) channelId = 1%nat
    /\ count_occ string_dec (watchList (lightning unwatched)) channelId = 0%nat
    /\ forall other, other <> channelId ->
         count_occ string_dec (watchList (lightning watched)) other
           = count_occ string_dec (watchList (lightning w)) other
         /\ count_occ string_dec (watchList (lightning unwatched)) other
              = count_occ string_dec (watchList (lightning w)) other.
Proof.
  intros channelId w watched unwatched. subst watched unwatched.
  destruct (watchChannel_run channelId w) as [l1 ->].
  destruct (unwatchChannel_run channelId w) as [l2 ->]. simpl.
  assert (Hother : forall other l, other <> channelId ->
            count_occ string_dec (filter (fun c => negb (c =? channelId)%string) l) other
            = count_occ string_dec l other).
  { intros other l Hne. induction l as [|x l IH]; simpl; [reflexivity|].
    destruct (x =? channelId)%string eqn:Hx; simpl.
    - apply String.eqb_eq in Hx. subst x.
      destruct (string_dec channelId other) as [Heq|_]; [congruence | exact IH].
    - destruct (string_dec x other); rewrite IH; reflexivity. }
  split; [apply count_occ_replace|]. split.
  - apply count_occ_not_In. intro Hin. apply filter_In in Hin.
    destruct Hin as [_ Hne]. rewrite String.eqb_refl in Hne. discriminate.
  - intros other Hne. split; [|apply Hother; exact Hne].
    rewrite count_occ_app, Hother by exact Hne. simpl.
    destruct (string_dec channelId other); [congruence | lia].
Qed.

(** * The audit log only grows *)

#[global] Instance appended_PreOrder : PreOrder appended.
Proof.
  split.
  - intro w. exists []. rewrite app_nil_r. reflexivity.
  - intros w1 w2 w3 [l1 H1] [l2 H2]. exists (l1 ++ l2)%list.
    rewrite H2, H1, app_assoc. reflexivity.
Qed.

(** X18: whatever the event, the audit log afterwards is the audit log of
    before with entries added at its end: no handler removes, reorders or
    rewrites an entry. *)
Theorem audit_log_is_append_only :
  forall (E : Env) (event : Event) (w : World),
    exists added,
      transactions (snd (handle E event w)) = (transactions w ++ added)%list.
Proof.
  intros E event.
  change (respects appended (handle E event)).
  destruct event as [s p|p raw|p|p|channelId]; open_program;
    unfold _addActiveConnection, _removeActiveConnection, watchChannel, unwatchChannel,
      confirmPayment, _rateLimitRebalance;
    walk ltac:(intro;
               first [ exists []; rewrite app_nil_r; reflexivity
                     | eexists [_]; reflexivity ]).
Qed.

(** * A view that could not be refreshed *)

(** X19: [_onConsiderChannelRebalance] answers [false], which asks the
    poll to stop watching the channel, exactly when the channel is not in
    the view.  After a refresh that failed, because the LN node is not
    connected or rejected the listing, the view is empty, so that the
    answer is [false] for every channel, and the look at it adds no
    effect. *)
Theorem unrefreshed_view_reports_channels_missing :
  forall (E : Env) (w : World) (channelId : string),
    let refreshed := snd (_refreshChannelList E w) in
    (exists keep w',
       _onConsiderChannelRebalance E channelId w = (Returned keep, w')
       /\ (keep = true <->
           exists c, In c (channels (lightning w)) /\ ch_id c = channelId))
    /\ (lnd (lightning w) = false \/ lnService_getChannels E = None ->
        channels (lightning refreshed) = []
        /\ fst (_onConsiderChannelRebalance E channelId refreshed) = Returned false
        /\ effects (snd (_onConsiderChannelRebalance E channelId refreshed))
           = effects refreshed).
Proof.
  intros E w channelId refreshed. split.
  - rewrite _onConsiderChannelRebalance_run.
    destruct (find (fun c => (ch_id c =? channelId)%string) (channels (lightning w)))
      as [c|] eqn:Hfind.
    + cbv zeta.
      assert (Hc : exists c, In c (channels (lightning w)) /\ ch_id c = channelId).
      { apply find_some in Hfind. exists c. rewrite <- String.eqb_eq. exact Hfind. }
      destruct (ch_isActive c && _ && _).
      * unfold bind.
        destruct (_rebalanceChannel E c _ w) as [[[]|] v] eqn:Hrun.
        -- eexists true, v. split; [reflexivity|]. tauto.
        -- exfalso. rewrite _rebalanceChannel_run in Hrun.
           repeat match type of Hrun with
                  | context [match ?x with _ => _ end] => destruct x
                  end; discriminate.
      * eexists true, w. split; [reflexivity|]. tauto.
    + eexists false, _. split; [reflexivity|]. split; [discriminate|].
      intros [c [Hin Hid]]. apply String.eqb_eq in Hid.
      pose proof (find_none _ _ Hfind c Hin) as Hno. simpl in Hno. congruence.
  - intro Hfailed.
    assert (Hempty : channels (lightning refreshed) = []).
    { subst refreshed. destruct (_refreshChannelList_run E w) as [lines ->]. simpl.
      unfold refreshedChannels.
      destruct Hfailed as [-> | ->]; [reflexivity|].
      destruct (lnd (lightning w)); reflexivity. }
    split; [exact Hempty|].
    rewrite _onConsiderChannelRebalance_run, Hempty. split; reflexivity.
Qed.

(** The LN node of A rejects the listing at a poll. *)
Lemma unrefreshed_view_reports_channels_missing_witness :
  let E := Scenario.env Scenario.now0 None None None None (Some "lnbc1") (1 # 2) 10 in
  let w := Scenario.nodeA 100000 900000 [] in
  lnService_getChannels E = None
  /\ fst (_onConsiderChannelRebalance E "C1" (snd (_refreshChannelList E w)))
     = Returned false.
Proof.
  cbv zeta. split; [reflexivity|].
  destruct (unrefreshed_view_reports_channels_missing
              (Scenario.env Scenario.now0 None None None None (Some "lnbc1") (1 # 2) 10)
              (Scenario.nodeA 100000 900000 []) "C1") as [_ Hfailed].
  destruct (Hfailed (or_intror eq_refl)) as [_ [Hfalse _]]. exact Hfalse.
Defined.

